(** * typed-configs: the config registry of [src/ConfigManager.ts]

    A shallow embedding of the [ConfigManager] class (methods [add], [get],
    [getConfigsDefintions], [takeSnapshot], [restoreSnapshot]) together with
    the JavaScript object store it works on, and the properties of the
    overlay / snapshot engine stated over that embedding. *)

From stdpp Require Import base strings list numbers.

Open Scope string_scope.
Open Scope list_scope.

(** ** Values and objects *)

(** The primitive values a config property can hold.  A JavaScript number is
    only ever stored, copied and compared here, never computed with, so an
    integer stands for it. *)
Inductive Value :=
  | VUndefined
  | VString (s : string)
  | VNumber (n : Z)
  | VBoolean (b : bool).

(** Insertion-ordered maps with an explicit key test: the shape shared by a
    JavaScript object (own enumerable properties in enumeration order) and by
    an ES6 [Map].  Writing an existing key updates it in place and keeps its
    position, writing a new key appends it. *)
Section AssocMap.
Context {K V : Type} (eqk : K -> K -> bool).

Fixpoint amap_get (k : K) (m : list (K * V)) : option V :=
  match m with
  | [] => None
  | (k', v) :: m' => if eqk k' k then Some v else amap_get k m'
  end.

Definition amap_has (k : K) (m : list (K * V)) : bool :=
  match amap_get k m with Some _ => true | None => false end.

Fixpoint amap_set (k : K) (v : V) (m : list (K * V)) : list (K * V) :=
  match m with
  | [] => [(k, v)]
  | (k', v') :: m' =>
      if eqk k' k then (k', v) :: m' else (k', v') :: amap_set k v m'
  end.

Definition amap_keys (m : list (K * V)) : list K := map fst m.
End AssocMap.

(** A JavaScript object holding primitive properties. *)
Definition Obj := list (string * Value).

(** [o[p]]: reading an absent property yields [undefined]. *)
Definition obj_get (p : string) (o : Obj) : Value :=
  match amap_get String.eqb p o with Some v => v | None => VUndefined end.

(** [o[p] = v] for an ordinary property name.  The name [__proto__], whose
    assignment JavaScript hands to a setter of [Object.prototype], is not an
    ordinary one; a statement about arbitrary keys excludes it. *)
Definition obj_set (p : string) (v : Value) (o : Obj) : Obj :=
  amap_set String.eqb p v o.

(** [Object.keys(o)], also the order of [for (const p in o)].  Property names
    that look like array indices, which JavaScript enumerates first, do not
    occur among field and config names. *)
Definition obj_keys (o : Obj) : list string := amap_keys o.

(** ** Classes, the object store and the registry state *)

(** Object identity: the index of the object in the store. *)
Definition loc := nat.

(** A reference as a JavaScript expression yields it: [None] is [undefined]. *)
Definition ref := option loc.

(** A config class.  [cid] is the identity of the constructor function (the
    key of the registry [Map]), [cname] is [clazz.name], [cdefaults] is the
    object that [new clazz()] builds (the in-class default assignments), and
    [cfields] is the field metadata attached to [clazz.prototype]: property
    name to the options object of that field, in declaration order.  The
    options objects live in the store, like every other object. *)
Record ClassType := {
  cid : nat;
  cname : string;
  cdefaults : Obj;
  cfields : list (string * loc)
}.

(** Key test of [Map<ClassTypeNoArgs, Object>]: object identity. *)
Definition class_eqb (c1 c2 : ClassType) : bool := Nat.eqb (cid c1) (cid c2).

(** [ConfigOptions]. *)
Record ConfigOptions := { configYmlPath : option string }.

(** What lies outside the process image: the YAML files by path (absent files
    are [None]; the content is the flat mapping the loader parsed),
    [process.env], and the coercion of a raw environment string to a declared
    type. *)
Record World := {
  yamlFiles : string -> option Obj;
  processEnv : list (string * string);
  coerce : string -> Value -> Value
}.

(** The state the methods run in: the object store, [this.configs], and the
    log of the files handed to the YAML loader. *)
Record State := {
  heap : list Obj;
  configs : list (ClassType * loc);
  yamlReads : list string
}.

(** The failures of §7 of the specification; each carries the names its
    message shows.  In the source they are [Error] objects told apart by
    their message: "Class already added '<class>'" for
    [AlreadyRegisteredError] and "Cannot find config instance for '<class>'"
    for [NotRegisteredError]; the others are thrown by the collaborators.
    [TypeError] is the runtime's own failure on a property access through
    [undefined]. *)
Inductive Error :=
  | NoFieldsError (class : string)
  | AlreadyRegisteredError (class : string)
  | NotRegisteredError (class : string)
  | MissingRequiredFieldError (field : string)
  | UnknownPropertyError (property class : string)
  | ValidationError (field : string)
  | MissingYamlFile (path : string)
  | TypeError.

Inductive Result (A : Type) :=
  | Ok (a : A)
  | Err (e : Error).
Arguments Ok {A} a.
Arguments Err {A} e.

(** ** The monad of the methods: state that survives a throw *)

(** A thrown error unwinds the call but never undoes a write. *)
Definition M (A : Type) : Type := State -> Result A * State.

#[global] Instance M_ret : MRet M := fun A a s => (Ok a, s).
#[global] Instance M_bind : MBind M := fun A B k m s =>
  match m s with
  | (Ok a, s') => k a s'
  | (Err e, s') => (Err e, s')
  end.

Definition throw {A} (e : Error) : M A := fun s => (Err e, s).
Definition get_state : M State := fun s => (Ok s, s).
Definition set_heap (h : list Obj) (s : State) : State :=
  {| heap := h; configs := configs s; yamlReads := yamlReads s |}.
Definition set_configs (c : list (ClassType * loc)) (s : State) : State :=
  {| heap := heap s; configs := c; yamlReads := yamlReads s |}.
Definition put_heap (h : list Obj) : M unit := fun s => (Ok tt, set_heap h s).
Definition put_configs (c : list (ClassType * loc)) : M unit :=
  fun s => (Ok tt, set_configs c s).
Definition log_read (path : string) : M unit :=
  fun s => (Ok tt, {| heap := heap s; configs := configs s;
                      yamlReads := yamlReads s ++ [path] |}).

(** [xs.forEach(f)] *)
Fixpoint forEach {A} (xs : list A) (f : A -> M unit) : M unit :=
  match xs with
  | [] => mret tt
  | x :: xs' => f x ;; forEach xs' f
  end.

(** A loop that threads a local accumulator, as a callback pushing onto an
    array of the enclosing function does. *)
Fixpoint foldM {A B} (f : B -> A -> M B) (xs : list A) (b : B) : M B :=
  match xs with
  | [] => mret b
  | x :: xs' => b' ← f b x; foldM f xs' b'
  end.

(** *** Store primitives *)

(** The object behind a location. *)
Definition deref_in (h : list Obj) (l : loc) : Obj := default [] (h !! l).

Definition deref (l : loc) : M Obj := s ← get_state; mret (deref_in (heap s) l).

(** Allocation of a new object. *)
Definition alloc (o : Obj) : M loc :=
  s ← get_state; put_heap (heap s ++ [o]) ;; mret (length (heap s)).

(** [r[p]] *)
Definition read (r : ref) (p : string) : M Value :=
  match r with
  | Some l => o ← deref l; mret (obj_get p o)
  | None => throw TypeError
  end.

(** [r[p] = v] *)
Definition assign (r : ref) (p : string) (v : Value) : M unit :=
  match r with
  | Some l => s ← get_state; put_heap (alter (obj_set p v) l (heap s))
  | None => throw TypeError
  end.

(** [new clazz()] *)
Definition new (clazz : ClassType) : M loc := alloc (cdefaults clazz).

(** [this.configs.has(clazz)], [this.configs.get(clazz)],
    [this.configs.set(clazz, l)] *)
Definition configs_has (clazz : ClassType) : M bool :=
  s ← get_state; mret (amap_has class_eqb clazz (configs s)).
Definition configs_get (clazz : ClassType) : M ref :=
  s ← get_state; mret (amap_get class_eqb clazz (configs s)).
Definition configs_set (clazz : ClassType) (l : loc) : M unit :=
  s ← get_state; put_configs (amap_set class_eqb clazz l (configs s)).

(** ** The collaborators of [./configMetadata] and [./configHelpers] *)

(** What [add] reads off an entry of the config-name mapping. *)
Record ConfigValueOptions := {
  property : string;
  type : Value
}.

(** The type tags a field may declare. *)
Definition supported_type (t : Value) : bool :=
  match t with
  | VString s => String.eqb s "string" || String.eqb s "number" || String.eqb s "boolean"
  | _ => false
  end.

(** Modelled from the spec: [getConfigValueOptionsMap] of [./configMetadata]
    is not part of the sources at hand.  It is the ordered mapping from
    property to field options of §4.1, and it fails with [NoFieldsError],
    naming the class, for a class without field definitions (§4.2,
    takeSnapshot). *)
Definition getConfigValueOptionsMap (clazz : ClassType) : M (list (string * loc)) :=
  match cfields clazz with
  | [] => throw (NoFieldsError (cname clazz))
  | fields => mret fields
  end.

(** Modelled from the spec: [getConfigValueNames] of [./configMetadata] is
    not part of the sources at hand.  It is the mapping from declared config
    name to field definition of §4.1, of which [add] reads the property and
    the type; a later field with the same config name replaces an earlier
    one. *)
Definition configValueNames_in (h : list Obj) (fields : list (string * loc))
    : list (string * ConfigValueOptions) :=
  fold_left (fun m '(p, l) =>
      match obj_get "name" (deref_in h l) with
      | VString n =>
          amap_set String.eqb n {| property := p; type := obj_get "type" (deref_in h l) |} m
      | _ => m
      end) fields [].

(** Modelled from the spec: [getConfigValueNames] of [./configMetadata], read
    off the store the call runs in. *)
Definition getConfigValueNames (clazz : ClassType) : M (list (string * ConfigValueOptions)) :=
  s ← get_state; mret (configValueNames_in (heap s) (cfields clazz)).

(** The config name an options object declares. *)
Definition name_of (o : Obj) : string :=
  match obj_get "name" o with VString n => n | _ => "" end.

(** Modelled from the spec: [validateConfigFieldOptions] of
    [./configMetadata] is not part of the sources at hand.  A class without
    field definitions fails with [NoFieldsError]; a field whose [required]
    flag is not a boolean or whose type is not one of string, number and
    boolean fails with [ValidationError] (§4.1, §4.2 step 1, §7). *)
Definition validateConfigFieldOptions (clazz : ClassType) : M unit :=
  fields ← getConfigValueOptionsMap clazz;
  forEach fields (fun '(_, l) =>
    o ← deref l;
    match obj_get "required" o with
    | VBoolean _ =>
        if supported_type (obj_get "type" o) then mret tt
        else throw (ValidationError (name_of o))
    | _ => throw (ValidationError (name_of o))
    end).

(** A value that does not count as set: [undefined] or the empty string. *)
Definition is_empty (v : Value) : bool :=
  match v with
  | VUndefined => true
  | VString s => String.eqb s ""
  | _ => false
  end.

(** Modelled from the spec: [validateRequiredConfigValues] of
    [./configMetadata] is not part of the sources at hand.  Every field
    marked [required: true] must have a non-empty, defined value on the
    instance; the first one in declaration order that has none fails with
    [MissingRequiredFieldError] naming the field (§4.2 step 5). *)
Definition validateRequiredConfigValues (configInstance : ref) (clazz : ClassType) : M unit :=
  fields ← getConfigValueOptionsMap clazz;
  forEach fields (fun '(p, l) =>
    o ← deref l;
    v ← read configInstance p;
    match obj_get "required" o with
    | VBoolean true =>
        if is_empty v then throw (MissingRequiredFieldError (name_of o)) else mret tt
    | _ => mret tt
    end).

(** Modelled from the spec: [getEnvironmentVariableKeys] of
    [./configHelpers] is not part of the sources at hand: the names of the
    variables of the process environment (§4.2 step 4). *)
Definition getEnvironmentVariableKeys (w : World) : list string :=
  amap_keys (processEnv w).

(** Modelled from the spec: [loadEnvironmentVariable] of [./configHelpers] is
    not part of the sources at hand: the variable's string, coerced to the
    declared type of the field (§6). *)
Definition loadEnvironmentVariable (w : World) (key : string) (t : Value) : Value :=
  match amap_get String.eqb key (processEnv w) with
  | Some raw => coerce w raw t
  | None => VUndefined
  end.

(** Modelled from the spec: [loadConfigfromYaml] of [./configHelpers] is not
    part of the sources at hand: it reads the file at the path and yields its
    flat mapping, and fails, naming the path, when the file is absent (§6,
    §7). *)
Definition loadConfigfromYaml (w : World) (path : string) : M Obj :=
  log_read path ;;
  match yamlFiles w path with
  | Some yamlValues => mret yamlValues
  | None => throw (MissingYamlFile path)
  end.

(** ** The methods of [ConfigManager] *)

(** Truthiness of [options.configYmlPath]: absent and the empty string are
    falsy. *)
Definition truthy_path (p : option string) : option string :=
  match p with
  | Some s => if String.eqb s "" then None else Some s
  | None => None
  end.

(** [add(clazz, options)], lines 11-47. *)
Definition add (w : World) (clazz : ClassType) (options : ConfigOptions) : M ref :=
  has ← configs_has clazz;
  if has : bool then throw (AlreadyRegisteredError (cname clazz)) else
  validateConfigFieldOptions clazz ;;
  inst ← new clazz;
  configs_set clazz inst ;;
  configInstance ← configs_get clazz;
  configNamePropertyMapping ← getConfigValueNames clazz;
  match truthy_path (configYmlPath options) with
  | Some path =>
      yamlValues ← loadConfigfromYaml w path;
      let knownYamlKeys :=
        List.filter (fun yamlKey => amap_has String.eqb yamlKey configNamePropertyMapping)
                    (obj_keys yamlValues) in
      forEach knownYamlKeys (fun key =>
        match amap_get String.eqb key configNamePropertyMapping with
        | Some configValueOptions =>
            assign configInstance (property configValueOptions) (obj_get key yamlValues)
        | None => throw TypeError
        end)
  | None => mret tt
  end ;;
  let envKeys := getEnvironmentVariableKeys w in
  let knownEnvKeys :=
    List.filter (fun envKey => amap_has String.eqb envKey configNamePropertyMapping) envKeys in
  forEach knownEnvKeys (fun key =>
    match amap_get String.eqb key configNamePropertyMapping with
    | Some configValueOptions =>
        assign configInstance (property configValueOptions)
               (loadEnvironmentVariable w key (type configValueOptions))
    | None => throw TypeError
    end) ;;
  validateRequiredConfigValues configInstance clazz ;;
  inst' ← new clazz;
  configs_set clazz inst' ;;
  configs_get clazz.

(** [get(clazz)], lines 49-55. *)
Definition get (clazz : ClassType) : M ref :=
  has ← configs_has clazz;
  if has : bool then configs_get clazz
  else throw (NotRegisteredError (cname clazz)).

(** The copy [{ ...o }] of an object. *)
Definition spread (o : Obj) : Obj := o.

(** [getConfigsDefintions()], lines 61-76, from the point where the awaited
    tick has passed.  The result array holds references to the pushed
    objects. *)
Definition getConfigsDefintions : M (list loc) :=
  s ← get_state;
  foldM (fun configPropertyDefinitions '(clazz, _) =>
      fields ← getConfigValueOptionsMap clazz;
      foldM (fun defs '(_, l) =>
          configValueOptions ← deref l;
          copy ← alloc (spread configValueOptions);
          mret (defs ++ [copy]))
        fields configPropertyDefinitions)
    (configs s) [].

(** [takeSnapshot(configClass)], lines 78-85. *)
Definition takeSnapshot (configClass : ClassType) : M loc :=
  snapshot ← alloc [];
  fields ← getConfigValueOptionsMap configClass;
  forEach fields (fun '(property, l) =>
    value ← read (Some l) "value";
    assign (Some snapshot) property value) ;;
  mret snapshot.

(** [restoreSnapshot(configClass, snapshot)], lines 87-91. *)
Definition restoreSnapshot (configClass : ClassType) (snapshot : loc) : M unit :=
  keys ← (o ← deref snapshot; mret (obj_keys o));
  forEach keys (fun property =>
    instance ← get configClass;
    value ← read (Some snapshot) property;
    assign instance property value).

(** Modelled from the spec: the reset hook [removeAll] (§4.2; the tests call
    it [removeAllConfigs]) is not part of the sources at hand.  It clears
    every registered class from the registry. *)
Definition removeAll : M unit := put_configs [].

(** ** The classes of the test suite *)

Module Examples.

(** The options object of a field, as the property decorator stores it. *)
Definition options (name description : string) (required : bool)
    (recommendedValue : Value) (type : string) : Obj :=
  [("name", VString name); ("description", VString description);
   ("required", VBoolean required); ("recommendedValue", recommendedValue);
   ("type", VString type)].

Definition helloWorldOptions : Obj :=
  options "HELLO_WORLD" "X" false VUndefined "string".
Definition fooBarOptions : Obj :=
  options "FOO_BAR" "Y" false (VString "Bar") "string".
Definition greetingOptions : Obj :=
  options "GREETING" "They way you say hi to others" true (VString "Hello") "string".

(** The store once the three classes are declared: their options objects. *)
Definition metadata : list Obj := [helloWorldOptions; fooBarOptions; greetingOptions].

Definition ExampleClass : ClassType :=
  {| cid := 0; cname := "ExampleClass";
     cdefaults := [("propertyDefaultHelloWorld", VString "Hi")];
     cfields := [("propertyDefaultHelloWorld", 0)] |}.

Definition ExtraExampleClass : ClassType :=
  {| cid := 1; cname := "ExtraExampleClass";
     cdefaults := [("propertyDefaultFooBar", VString "FooBar")];
     cfields := [("propertyDefaultFooBar", 1)] |}.

(** A class with a required field that has no in-class default. *)
Definition Communicator : ClassType :=
  {| cid := 2; cname := "Communicator";
     cdefaults := [];
     cfields := [("greeting", 2)] |}.

(** A class without config fields. *)
Definition Plain : ClassType :=
  {| cid := 3; cname := "Plain"; cdefaults := []; cfields := [] |}.

(** The registry before any class is added. *)
Definition init : State := {| heap := metadata; configs := []; yamlReads := [] |}.

(** Environment strings are taken as they are for a string field. *)
Definition keep (raw : string) (t : Value) : Value := VString raw.

Definition noFiles (path : string) : option Obj := None.
Definition localYml (path : string) : option Obj :=
  if String.eqb path "local.yml" then Some [("HELLO_WORLD", VString "Yo World!")] else None.

Definition bare : World :=
  {| yamlFiles := noFiles; processEnv := []; coerce := keep |}.
Definition withEnv : World :=
  {| yamlFiles := noFiles; processEnv := [("HELLO_WORLD", "HeyWorld")]; coerce := keep |}.
Definition withYaml : World :=
  {| yamlFiles := localYml; processEnv := []; coerce := keep |}.
Definition withBoth : World :=
  {| yamlFiles := localYml; processEnv := [("PATH", "/bin"); ("HELLO_WORLD", "HeyWorld")];
     coerce := keep |}.

Definition noOptions : ConfigOptions := {| configYmlPath := None |}.
Definition emptyPath : ConfigOptions := {| configYmlPath := Some "" |}.
Definition localPath : ConfigOptions := {| configYmlPath := Some "local.yml" |}.

End Examples.

(** A class with two required fields and no in-class defaults, in a store of
    its own. *)
Module TwoRequired.


End TwoRequired.

(** ** Notions the properties are stated with *)

(** Every run of [m] takes a state to an [R]-related one, whether it returns
    or throws. *)
Definition preserves (R : State -> State -> Prop) {A} (m : M A) : Prop :=
  forall s, R s (m s).2.

(** Nothing changed. *)
Definition unchanged (s s' : State) : Prop := s' = s.
(** The registry map is the same and no object left the store. *)
Definition settled (s s' : State) : Prop :=
  configs s' = configs s /\ length (heap s) <= length (heap s').

(** The options object of a field passes [validateConfigFieldOptions]. *)
Definition options_ok (o : Obj) : bool :=
  match obj_get "required" o with
  | VBoolean _ => supported_type (obj_get "type" o)
  | _ => false
  end.

(** The metadata of a class is in place in a store: the class has fields and
    every options object is there and well-formed. *)
Definition fields_ok (h : list Obj) (c : ClassType) : bool :=
  negb (Nat.eqb (length (cfields c)) 0) &&
  forallb (fun f : string * loc => options_ok (deref_in h f.2)) (cfields c).

(** A field that is marked required and has no value on an instance. *)
Definition required_missing (h : list Obj) (inst : Obj) (f : string * loc) : bool :=
  match obj_get "required" (deref_in h f.2) with
  | VBoolean true => is_empty (obj_get f.1 inst)
  | _ => false
  end.

(** What one overlay loop does to the instance it writes: for each key, in
    order, the property the key is mapped to receives the key's value. *)
Definition overlay_keys (m : list (string * ConfigValueOptions))
    (val : string -> ConfigValueOptions -> Value) (keys : list string) (o : Obj) : Obj :=
  fold_left (fun o key =>
      match amap_get String.eqb key m with
      | Some cvo => obj_set (property cvo) (val key cvo) o
      | None => o
      end) keys o.

(** The keys of a source that are declared config names. *)
Definition known_keys (m : list (string * ConfigValueOptions)) (keys : list string)
    : list string :=
  List.filter (fun k => amap_has String.eqb k m) keys.

(** The YAML layer over an instance. *)
Definition yaml_layer (m : list (string * ConfigValueOptions)) (yamlValues o : Obj) : Obj :=
  overlay_keys m (fun key _ => obj_get key yamlValues) (known_keys m (obj_keys yamlValues)) o.

(** The environment layer over an instance. *)
Definition env_layer (w : World) (m : list (string * ConfigValueOptions)) (o : Obj) : Obj :=
  overlay_keys m (fun key cvo => loadEnvironmentVariable w key (type cvo))
               (known_keys m (getEnvironmentVariableKeys w)) o.

(** The last steps of [add], from the required-field check on, for the
    instance [inst] that the overlays produced. *)
Definition add_finish (c : ClassType) (s : State) (reads : list string) (inst : Obj)
    : Result ref * State :=
  let l0 := length (heap s) in
  match find (required_missing (heap s) inst) (cfields c) with
  | Some f =>
      (Err (MissingRequiredFieldError (name_of (deref_in (heap s) f.2))),
       {| heap := heap s ++ [inst];
          configs := amap_set class_eqb c l0 (configs s);
          yamlReads := reads |})
  | None =>
      (Ok (Some (S l0)),
       {| heap := heap s ++ [inst; cdefaults c];
          configs := amap_set class_eqb c (S l0) (amap_set class_eqb c l0 (configs s));
          yamlReads := reads |})
  end.

(** The instance once the YAML layer and the environment layer are laid over
    the in-class defaults; there is none when the YAML file is absent. *)
Definition overlaid (w : World) (c : ClassType) (o : ConfigOptions) (h : list Obj)
    : option Obj :=
  let m := configValueNames_in h (cfields c) in
  match truthy_path (configYmlPath o) with
  | Some path =>
      match yamlFiles w path with
      | Some y => Some (env_layer w m (yaml_layer m y (cdefaults c)))
      | None => None
      end
  | None => Some (env_layer w m (cdefaults c))
  end.

(** The config name a field declares. *)
Definition named (h : list Obj) (f : string * loc) : string := name_of (deref_in h f.2).

(** The fields of a class are told apart: no two share a property or a config
    name, and every options object carries its name (§3). *)
Definition fields_distinct (h : list Obj) (c : ClassType) : Prop :=
  NoDup (map fst (cfields c)) /\
  NoDup (map (named h) (cfields c)) /\
  Forall (fun f : string * loc => obj_get "name" (deref_in h f.2) = VString (named h f))
         (cfields c).

(** The YAML mapping [add] loads, if it loads one. *)
Definition yaml_source (w : World) (o : ConfigOptions) : option Obj :=
  match truthy_path (configYmlPath o) with
  | Some path => yamlFiles w path
  | None => None
  end.

(** What [add] comes to for a class that is not in the registry and whose
    field metadata is in place. *)
Definition add_outcome (w : World) (c : ClassType) (o : ConfigOptions) (s : State)
    : Result ref * State :=
  let l0 := length (heap s) in
  let m := configValueNames_in (heap s) (cfields c) in
  match truthy_path (configYmlPath o) with
  | Some path =>
      match yamlFiles w path with
      | Some y =>
          add_finish c s (yamlReads s ++ [path]) (env_layer w m (yaml_layer m y (cdefaults c)))
      | None =>
          (Err (MissingYamlFile path),
           {| heap := heap s ++ [cdefaults c];
              configs := amap_set class_eqb c l0 (configs s);
              yamlReads := yamlReads s ++ [path] |})
      end
  | None => add_finish c s (yamlReads s) (env_layer w m (cdefaults c))
  end.

(** One thing the program around the registry can do: call a method of
    [Configs], write a property of an object it holds, or create an object
    (a snapshot literal, say). *)
Inductive Call :=
  | CallAdd (w : World) (c : ClassType) (o : ConfigOptions)
  | CallGet (c : ClassType)
  | CallGetConfigsDefintions
  | CallTakeSnapshot (c : ClassType)
  | CallRestoreSnapshot (c : ClassType) (snapshot : loc)
  | CallRemoveAll
  | SetProperty (l : loc) (p : string) (v : Value)
  | NewObject (o : Obj).

(** The state a call leaves behind, whether it returns or throws. *)
Definition step (s : State) (call : Call) : State :=
  match call with
  | CallAdd w c o => (add w c o s).2
  | CallGet c => (get c s).2
  | CallGetConfigsDefintions => (getConfigsDefintions s).2
  | CallTakeSnapshot c => (takeSnapshot c s).2
  | CallRestoreSnapshot c snapshot => (restoreSnapshot c snapshot s).2
  | CallRemoveAll => (removeAll s).2
  | SetProperty l p v => (assign (Some l) p v s).2
  | NewObject o => (alloc o s).2
  end.

Definition run (calls : list Call) (s : State) : State := fold_left step calls s.

(** The calls that take no class out of the registry. *)
Definition keeps_classes (call : Call) : bool :=
  match call with
  | CallRemoveAll => false
  | _ => true
  end.

(** The options objects of the registered classes: classes in the order of
    the registry map, fields in declaration order. *)
Definition declared (cs : list (ClassType * loc)) : list loc :=
  flat_map (fun cl : ClassType * loc => map snd (cfields cl.1)) cs.

(** The field metadata of a class is present in a store. *)
Definition fields_in_store (h : list Obj) (c : ClassType) : bool :=
  negb (Nat.eqb (length (cfields c)) 0) &&
  forallb (fun f : string * loc => Nat.ltb f.2 (length h)) (cfields c).

(** Every registered class has its field metadata in the store. *)
Definition registry_ok (s : State) : bool :=
  forallb (fun cl : ClassType * loc => fields_in_store (heap s) cl.1) (configs s).

(** What [restoreSnapshot] does to the instance: every key of the snapshot,
    declared property or not, is written. *)
Definition restore_onto (snapshot : Obj) (keys : list string) (o : Obj) : Obj :=
  fold_left (fun o p => obj_set p (obj_get p snapshot) o) keys o.

(** The object [takeSnapshot] builds: per declared property, the ["value"]
    entry of the property's options object. *)
Definition snapshot_of (h : list Obj) (fields : list (string * loc)) (o : Obj) : Obj :=
  fold_left (fun o (f : string * loc) => obj_set f.1 (obj_get "value" (deref_in h f.2)) o)
            fields o.

Module Scenarios.
Import Examples.

(** Read a property of the registered instance after [add]. *)
Definition addThenRead (w : World) (options : ConfigOptions) : M Value :=
  add w ExampleClass options ;;
  configInstance ← get ExampleClass;
  read configInstance "propertyDefaultHelloWorld".

(** Register, set a property on the live instance, take a snapshot, and
    read the property from the snapshot and from the instance. *)
Definition snapshotAfterWrite : M (Value * Value) :=
  add bare ExampleClass noOptions ;;
  configInstance ← get ExampleClass;
  assign configInstance "propertyDefaultHelloWorld" (VString "Hey World!") ;;
  snapshot ← takeSnapshot ExampleClass;
  inSnapshot ← read (Some snapshot) "propertyDefaultHelloWorld";
  onInstance ← read configInstance "propertyDefaultHelloWorld";
  mret (inSnapshot, onInstance).

(** Register, set a property, then restore the snapshot just taken; read
    the property before and after. *)
Definition takeThenRestore : M (Value * Value) :=
  add bare ExampleClass noOptions ;;
  configInstance ← get ExampleClass;
  assign configInstance "propertyDefaultHelloWorld" (VString "Hey World!") ;;
  before ← read configInstance "propertyDefaultHelloWorld";
  snapshot ← takeSnapshot ExampleClass;
  restoreSnapshot ExampleClass snapshot ;;
  after ← read configInstance "propertyDefaultHelloWorld";
  mret (before, after).

(** Register, then restore [{ unknownProperty: "value" }]; read the
    property off the instance afterwards. *)
Definition restoreUnknown : M Value :=
  add bare ExampleClass noOptions ;;
  snapshot ← alloc [("unknownProperty", VString "value")];
  restoreSnapshot ExampleClass snapshot ;;
  configInstance ← get ExampleClass;
  read configInstance "unknownProperty".

(** Restore [{}] for a class that was never added. *)
Definition restoreEmptyUnregistered : M unit :=
  snapshot ← alloc [];
  restoreSnapshot ExampleClass snapshot.
End Scenarios.

(** ** The environment helpers of the test suite *)

Section EnvHelpers.
(** The string that JavaScript's concatenation of the empty string with a
    value yields. *)
Context (to_string : Value -> string).

(** [setEnvVariables(envVariables)], lines 112-116 of the [ConfigManager]
    tests: every name of the record is set in [process.env] to its value,
    converted to a string. *)
Definition setEnvVariables (envVariables : Obj) (env : list (string * string))
    : list (string * string) :=
  fold_left (fun env varName =>
               amap_set String.eqb varName (to_string (obj_get varName envVariables)) env)
            (obj_keys envVariables) env.

(** [delete process.env[varName]] *)
Definition env_delete (varName : string) (env : list (string * string))
    : list (string * string) :=
  List.filter (fun kv : string * string => negb (String.eqb kv.1 varName)) env.

(** [removeEnvVariables(envVariables)], lines 118-122 of the [ConfigManager]
    tests. *)
Definition removeEnvVariables (envVariables : Obj) (env : list (string * string))
    : list (string * string) :=
  fold_left (fun env varName => env_delete varName env) (obj_keys envVariables) env.
End EnvHelpers.

(** ** Further notions *)

(** The failures [add] raises before it creates an instance. *)
Definition rejects_early (e : Error) : bool :=
  match e with
  | AlreadyRegisteredError _ | NoFieldsError _ | ValidationError _ => true
  | _ => false
  end.

(** A world with one more environment variable. *)
Definition with_variable (k raw : string) (w : World) : World :=
  {| yamlFiles := yamlFiles w; processEnv := (k, raw) :: processEnv w; coerce := coerce w |}.

(** A world whose YAML files each hold one more key. *)
Definition with_yaml_key (k : string) (v : Value) (w : World) : World :=
  {| yamlFiles := fun path => option_map (cons (k, v)) (yamlFiles w path);
     processEnv := processEnv w; coerce := coerce w |}.

(** * Properties *)

(** ** Insertion-ordered maps *)

Section AssocMapFacts.
Context {K V : Type} (eqk : K -> K -> bool).
Hypothesis eqk_refl : forall k, eqk k k = true.
Hypothesis eqk_cong : forall a b c, eqk a b = true -> eqk a c = eqk b c.

Lemma amap_get_set_eq (k : K) (v : V) m :
  amap_get eqk k (amap_set eqk k v m) = Some v.
Proof using eqk_refl.
  induction m as [|[k' v'] m IH]; simpl.
  - by rewrite eqk_refl.
  - destruct (eqk k' k) eqn:E; simpl; rewrite E; auto.
Qed.

Lemma amap_get_set_ne (j k : K) (v : V) m :
  eqk k j = false -> amap_get eqk j (amap_set eqk k v m) = amap_get eqk j m.
Proof using eqk_cong.
  intros Hne. induction m as [|[k' v'] m IH]; simpl.
  - by rewrite Hne.
  - destruct (eqk k' k) eqn:E; simpl.
    + by rewrite (eqk_cong _ _ j E), Hne.
    + by rewrite IH.
Qed.

Lemma amap_keys_set_present (k : K) (v : V) m :
  amap_has eqk k m = true -> amap_keys (amap_set eqk k v m) = amap_keys m.
Proof.
  unfold amap_has, amap_keys. induction m as [|[k' v'] m IH]; simpl; [done|].
  destruct (eqk k' k); simpl; [done|]. intros H. by rewrite IH.
Qed.

Lemma amap_keys_set_absent (k : K) (v : V) m :
  amap_has eqk k m = false -> amap_keys (amap_set eqk k v m) = amap_keys m ++ [k].
Proof.
  unfold amap_has, amap_keys. induction m as [|[k' v'] m IH]; simpl; [done|].
  destruct (eqk k' k); simpl; [done|]. intros H. by rewrite IH.
Qed.
End AssocMapFacts.

Lemma class_eqb_refl c : class_eqb c c = true.
Proof. apply Nat.eqb_refl. Qed.

Lemma class_eqb_cong a b c : class_eqb a b = true -> class_eqb a c = class_eqb b c.
Proof. unfold class_eqb. intros H%Nat.eqb_eq. by rewrite H. Qed.

Lemma class_eqb_sym a b : class_eqb a b = class_eqb b a.
Proof. apply Nat.eqb_sym. Qed.

(** The registry looks a class up by its identity alone. *)
Lemma configs_get_cong (a b : ClassType) (m : list (ClassType * loc)) :
  class_eqb a b = true -> amap_get class_eqb a m = amap_get class_eqb b m.
Proof.
  intros H. induction m as [|[k v] m IH]; simpl; [done|].
  rewrite IH. rewrite (class_eqb_sym k a), (class_eqb_sym k b).
  by rewrite (class_eqb_cong _ _ k H).
Qed.

Lemma string_eqb_cong (a b c : string) :
  String.eqb a b = true -> String.eqb a c = String.eqb b c.
Proof. intros H%String.eqb_eq. by subst. Qed.

Lemma obj_get_set_eq p v o : obj_get p (obj_set p v o) = v.
Proof. unfold obj_get, obj_set. by rewrite (amap_get_set_eq _ String.eqb_refl). Qed.

Lemma obj_get_set_ne p q v o : p <> q -> obj_get q (obj_set p v o) = obj_get q o.
Proof.
  intros H. unfold obj_get, obj_set.
  rewrite (amap_get_set_ne _ string_eqb_cong); [done|]. by apply String.eqb_neq.
Qed.

(** ** Running the monad *)

Arguments deref : simpl never.
Arguments read : simpl never.
Arguments assign : simpl never.
Arguments alloc : simpl never.
Arguments new : simpl never.
Arguments configs_has : simpl never.
Arguments configs_get : simpl never.
Arguments configs_set : simpl never.
Arguments get : simpl never.
Arguments getConfigValueOptionsMap : simpl never.
Arguments getConfigValueNames : simpl never.
Arguments loadConfigfromYaml : simpl never.
Arguments validateConfigFieldOptions : simpl never.
Arguments validateRequiredConfigValues : simpl never.

Lemma bind_run {A B} (m : M A) (k : A -> M B) s :
  (m ≫= k) s = match m s with
               | (Ok a, s') => k a s'
               | (Err e, s') => (Err e, s')
               end.
Proof. reflexivity. Qed.

Lemma ret_run {A} (a : A) s : (mret a : M A) s = (Ok a, s).
Proof. reflexivity. Qed.

Lemma set_heap_id s : set_heap (heap s) s = s.
Proof. by destruct s. Qed.

(** ** Relations between the state before and after a call *)

Section Preservation.
Context (R : State -> State -> Prop) `{!Reflexive R} `{!Transitive R}.

Lemma preserves_ret {A} (a : A) : preserves R (mret a).
Proof using Reflexive0. intros s. simpl. reflexivity. Qed.

Lemma preserves_throw {A} e : preserves R (throw e : M A).
Proof using Reflexive0. intros s. simpl. reflexivity. Qed.

Lemma preserves_get_state : preserves R get_state.
Proof using Reflexive0. intros s. simpl. reflexivity. Qed.

Lemma preserves_bind {A B} (m : M A) (k : A -> M B) :
  preserves R m -> (forall a, preserves R (k a)) -> preserves R (m ≫= k).
Proof using Transitive0.
  intros Hm Hk s. rewrite bind_run. specialize (Hm s).
  destruct (m s) as [[a|e] s1]; simpl in *; [|done].
  etransitivity; [exact Hm|apply Hk].
Qed.

Lemma preserves_forEach {A} (xs : list A) (f : A -> M unit) :
  (forall x, preserves R (f x)) -> preserves R (forEach xs f).
Proof using Reflexive0 Transitive0.
  intros Hf. induction xs as [|x xs IH]; simpl.
  - apply preserves_ret.
  - apply preserves_bind; auto.
Qed.

Lemma preserves_foldM {A B} (f : B -> A -> M B) (xs : list A) (b : B) :
  (forall b x, preserves R (f b x)) -> preserves R (foldM f xs b).
Proof using Reflexive0 Transitive0.
  intros Hf. revert b. induction xs as [|x xs IH]; intros b; simpl.
  - apply preserves_ret.
  - apply preserves_bind; auto.
Qed.

Lemma preserves_deref l : preserves R (deref l).
Proof using Reflexive0 Transitive0.
  apply preserves_bind; [apply preserves_get_state|intros; apply preserves_ret].
Qed.

Lemma preserves_read r p : preserves R (read r p).
Proof using Reflexive0 Transitive0.
  destruct r; unfold read; [|apply preserves_throw].
  apply preserves_bind; [apply preserves_deref|intros; apply preserves_ret].
Qed.

Lemma preserves_getConfigValueOptionsMap c : preserves R (getConfigValueOptionsMap c).
Proof using Reflexive0.
  unfold getConfigValueOptionsMap. destruct (cfields c).
  - apply preserves_throw.
  - apply preserves_ret.
Qed.

Lemma preserves_getConfigValueNames c : preserves R (getConfigValueNames c).
Proof using Reflexive0 Transitive0.
  apply preserves_bind; [apply preserves_get_state|intros; apply preserves_ret].
Qed.

Lemma preserves_configs_has c : preserves R (configs_has c).
Proof using Reflexive0 Transitive0.
  apply preserves_bind; [apply preserves_get_state|intros; apply preserves_ret].
Qed.

Lemma preserves_configs_get c : preserves R (configs_get c).
Proof using Reflexive0 Transitive0.
  apply preserves_bind; [apply preserves_get_state|intros; apply preserves_ret].
Qed.

Lemma preserves_get c : preserves R (get c).
Proof using Reflexive0 Transitive0.
  apply preserves_bind; [apply preserves_configs_has|].
  intros []; [apply preserves_configs_get|apply preserves_throw].
Qed.

Lemma preserves_validateConfigFieldOptions c : preserves R (validateConfigFieldOptions c).
Proof using Reflexive0 Transitive0.
  apply preserves_bind; [apply preserves_getConfigValueOptionsMap|].
  intros fields. apply preserves_forEach. intros [p l].
  apply preserves_bind; [apply preserves_deref|]. intros o.
  destruct (obj_get "required" o); try apply preserves_throw.
  destruct (supported_type _); [apply preserves_ret|apply preserves_throw].
Qed.

Lemma preserves_validateRequiredConfigValues r c :
  preserves R (validateRequiredConfigValues r c).
Proof using Reflexive0 Transitive0.
  apply preserves_bind; [apply preserves_getConfigValueOptionsMap|].
  intros fields. apply preserves_forEach. intros [p l].
  apply preserves_bind; [apply preserves_deref|]. intros o.
  apply preserves_bind; [apply preserves_read|]. intros v.
  destruct (obj_get "required" o) as [| | |[]]; try apply preserves_ret.
  destruct (is_empty v); [apply preserves_throw|apply preserves_ret].
Qed.

(** The two writes to the store, for a relation that admits them. *)
Hypothesis R_alloc : forall o s, R s (set_heap (heap s ++ [o]) s).
Hypothesis R_alter : forall f l s, R s (set_heap (alter f l (heap s)) s).

Lemma preserves_alloc o : preserves R (alloc o).
Proof using R_alloc. intros s. apply R_alloc. Qed.

Lemma preserves_assign r p v : preserves R (assign r p v).
Proof using Reflexive0 R_alter.
  destruct r; unfold assign; [|apply preserves_throw].
  intros s. apply R_alter.
Qed.

Lemma preserves_takeSnapshot c : preserves R (takeSnapshot c).
Proof using Reflexive0 Transitive0 R_alloc R_alter.
  apply preserves_bind; [apply preserves_alloc|]. intros snapshot.
  apply preserves_bind; [apply preserves_getConfigValueOptionsMap|]. intros fields.
  apply preserves_bind; [|intros; apply preserves_ret].
  apply preserves_forEach. intros [p l].
  apply preserves_bind; [apply preserves_read|]. intros v. apply preserves_assign.
Qed.

Lemma preserves_restoreSnapshot c snapshot : preserves R (restoreSnapshot c snapshot).
Proof using Reflexive0 Transitive0 R_alloc R_alter.
  apply preserves_bind.
  { apply preserves_bind; [apply preserves_deref|intros; apply preserves_ret]. }
  intros keys. apply preserves_forEach. intros p.
  apply preserves_bind; [apply preserves_get|]. intros r.
  apply preserves_bind; [apply preserves_read|]. intros v. apply preserves_assign.
Qed.

Lemma preserves_getConfigsDefintions : preserves R getConfigsDefintions.
Proof using Reflexive0 Transitive0 R_alloc R_alter.
  apply preserves_bind; [apply preserves_get_state|]. intros s.
  apply preserves_foldM. intros defs [c l].
  apply preserves_bind; [apply preserves_getConfigValueOptionsMap|]. intros fields.
  apply preserves_foldM. intros defs' [p l'].
  apply preserves_bind; [apply preserves_deref|]. intros o.
  apply preserves_bind; [apply preserves_alloc|intros; apply preserves_ret].
Qed.
End Preservation.

(** *** The relations used below *)

#[local] Instance unchanged_refl : Reflexive unchanged.
Proof. by intros s. Qed.
#[local] Instance unchanged_trans : Transitive unchanged.
Proof. unfold unchanged. intros s1 s2 s3 -> ->. done. Qed.
#[local] Instance settled_refl : Reflexive settled.
Proof. by intros s. Qed.
#[local] Instance settled_trans : Transitive settled.
Proof. unfold settled. intros s1 s2 s3 [H1 H1'] [H2 H2']. split; [congruence|lia]. Qed.

Lemma settled_alloc o s : settled s (set_heap (heap s ++ [o]) s).
Proof. split; [done|]. simpl. rewrite length_app. lia. Qed.

Lemma settled_alter (f : Obj -> Obj) l s : settled s (set_heap (alter f l (heap s)) s).
Proof. split; [done|]. simpl. by rewrite length_alter. Qed.

(** ** The primitive steps, run *)

Lemma deref_run l s : deref l s = (Ok (deref_in (heap s) l), s).
Proof. reflexivity. Qed.

Lemma read_run l p s : read (Some l) p s = (Ok (obj_get p (deref_in (heap s) l)), s).
Proof. reflexivity. Qed.

Lemma assign_run l p v s :
  assign (Some l) p v s = (Ok tt, set_heap (alter (obj_set p v) l (heap s)) s).
Proof. reflexivity. Qed.

Lemma alloc_run o s : alloc o s = (Ok (length (heap s)), set_heap (heap s ++ [o]) s).
Proof. reflexivity. Qed.

Lemma get_run c s :
  get c s = (match amap_get class_eqb c (configs s) with
             | Some l => Ok (Some l)
             | None => Err (NotRegisteredError (cname c))
             end, s).
Proof.
  unfold get, configs_has, configs_get, amap_has.
  cbv [mbind M_bind mret M_ret get_state throw].
  destruct (amap_get class_eqb c (configs s)) eqn:E; [|done]. by rewrite E.
Qed.

Lemma getConfigValueOptionsMap_run c s :
  cfields c <> [] -> getConfigValueOptionsMap c s = (Ok (cfields c), s).
Proof. intros H. unfold getConfigValueOptionsMap. by destruct (cfields c). Qed.

Lemma deref_in_app_l h h' l : l < length h -> deref_in (h ++ h') l = deref_in h l.
Proof. intros H. unfold deref_in. by rewrite lookup_app_l. Qed.

Lemma deref_in_alter_ne (f : Obj -> Obj) h l k :
  l <> k -> deref_in (alter f l h) k = deref_in h k.
Proof. intros H. unfold deref_in. by rewrite list_lookup_alter_ne. Qed.

Lemma deref_in_fresh h o : deref_in (h ++ [o]) (length h) = o.
Proof.
  unfold deref_in. by rewrite list_lookup_middle.
Qed.

Lemma alter_fresh (f : Obj -> Obj) h o : alter f (length h) (h ++ [o]) = h ++ [f o].
Proof.
  rewrite <- (Nat.add_0_r (length h)). by rewrite alter_app_r.
Qed.

(** ** Field validation, run *)

Lemma options_ok_valid h l : options_ok (deref_in h l) = true -> l < length h.
Proof.
  unfold deref_in. intros H. destruct (h !! l) eqn:E.
  - by eapply lookup_lt_Some.
  - discriminate H.
Qed.

Lemma fields_ok_valid h c :
  fields_ok h c = true -> Forall (fun f : string * loc => f.2 < length h) (cfields c).
Proof.
  unfold fields_ok. intros [_ H]%andb_true_iff. rewrite forallb_forall in H.
  apply List.Forall_forall. intros f Hf. by apply options_ok_valid, H.
Qed.

Lemma fields_ok_nonempty h c : fields_ok h c = true -> cfields c <> [].
Proof.
  unfold fields_ok. intros [H _]%andb_true_iff. by destruct (cfields c).
Qed.

Lemma validateConfigFieldOptions_state c s : (validateConfigFieldOptions c s).2 = s.
Proof. exact (preserves_validateConfigFieldOptions unchanged c s). Qed.

Lemma validate_loop_ok (fields : list (string * loc)) s :
  (forEach fields (fun '(_, l) =>
     o ← deref l;
     match obj_get "required" o with
     | VBoolean _ =>
         if supported_type (obj_get "type" o) then mret tt
         else throw (ValidationError (name_of o))
     | _ => throw (ValidationError (name_of o))
     end) s).1 = Ok tt
  <-> forallb (fun f : string * loc => options_ok (deref_in (heap s) f.2)) fields = true.
Proof.
  induction fields as [|[p l] fields IH]; simpl; [by split|].
  rewrite !bind_run, deref_run. unfold options_ok at 1. simpl.
  destruct (obj_get "required" (deref_in (heap s) l)); simpl; try by split.
  destruct (supported_type _); simpl; [exact IH|by split].
Qed.

Lemma validateConfigFieldOptions_ok c s :
  (validateConfigFieldOptions c s).1 = Ok tt <-> fields_ok (heap s) c = true.
Proof.
  unfold validateConfigFieldOptions, getConfigValueOptionsMap, fields_ok.
  destruct (cfields c) as [|f fs]; [by split|].
  rewrite bind_run, ret_run. apply validate_loop_ok.
Qed.

(** ** The required-field check, run *)

Lemma validateRequiredConfigValues_run l c s :
  cfields c <> [] ->
  validateRequiredConfigValues (Some l) c s =
    (match find (required_missing (heap s) (deref_in (heap s) l)) (cfields c) with
     | Some f => Err (MissingRequiredFieldError (name_of (deref_in (heap s) f.2)))
     | None => Ok tt
     end, s).
Proof.
  intros Hne. unfold validateRequiredConfigValues, getConfigValueOptionsMap.
  destruct (cfields c) as [|f0 fs] eqn:E; [done|]. clear E Hne.
  rewrite bind_run, ret_run. generalize (f0 :: fs). intros fields.
  induction fields as [|[p k] fields IH]; simpl; [done|].
  rewrite !bind_run, deref_run, bind_run, read_run. unfold required_missing at 1. simpl.
  destruct (obj_get "required" (deref_in (heap s) k)) as [| | |[]]; simpl; try exact IH.
  destruct (is_empty _); simpl; [done|exact IH].
Qed.

(** ** The overlay loops, run *)

Lemma known_keys_known m keys :
  Forall (fun k => amap_has String.eqb k m = true) (known_keys m keys).
Proof.
  apply List.Forall_forall. intros k Hk. unfold known_keys in Hk.
  by apply filter_In in Hk as [_ Hk].
Qed.

Lemma overlay_loop_run m val keys l s :
  Forall (fun k => amap_has String.eqb k m = true) keys ->
  forEach keys (fun key =>
    match amap_get String.eqb key m with
    | Some cvo => assign (Some l) (property cvo) (val key cvo)
    | None => throw TypeError
    end) s
  = (Ok tt, set_heap (alter (overlay_keys m val keys) l (heap s)) s).
Proof.
  intros Hk. revert s. induction Hk as [|key keys Hkey _ IH]; intros s; simpl.
  - rewrite list_alter_id by done. by rewrite set_heap_id.
  - rewrite bind_run. unfold amap_has in Hkey.
    destruct (amap_get String.eqb key m) as [cvo|] eqn:E; [|discriminate Hkey].
    rewrite assign_run, IH. simpl. rewrite list_alter_alter_eq.
    unfold set_heap. simpl. do 2 f_equal.
    apply list_alter_ext; [|done]. intros o _. unfold overlay_keys. simpl. by rewrite E.
Qed.

Lemma configValueNames_in_app h h' fields :
  Forall (fun f : string * loc => f.2 < length h) fields ->
  configValueNames_in (h ++ h') fields = configValueNames_in h fields.
Proof.
  unfold configValueNames_in. generalize (@nil (string * ConfigValueOptions)).
  intros acc Hf. revert acc. induction Hf as [|[p l] fields Hl _ IH]; intros acc; simpl; [done|].
  simpl in Hl. rewrite (deref_in_app_l _ _ _ Hl). apply IH.
Qed.

Lemma required_missing_app h h' inst fields :
  Forall (fun f : string * loc => f.2 < length h) fields ->
  find (required_missing (h ++ h') inst) fields = find (required_missing h inst) fields.
Proof.
  induction 1 as [|[p l] fields Hl _ IH]; simpl; [done|].
  unfold required_missing at 1 3. simpl in *. rewrite (deref_in_app_l _ _ _ Hl).
  by rewrite IH.
Qed.

(** ** [add], run *)

Lemma add_registered w c o s :
  amap_has class_eqb c (configs s) = true ->
  add w c o s = (Err (AlreadyRegisteredError (cname c)), s).
Proof. intros H. unfold add, configs_has. rewrite !bind_run. simpl. by rewrite H. Qed.

Lemma add_invalid w c o s e :
  amap_has class_eqb c (configs s) = false ->
  (validateConfigFieldOptions c s).1 = Err e ->
  add w c o s = (Err e, s).
Proof.
  intros Hhas Hbad. unfold add, configs_has. rewrite !bind_run. simpl. rewrite Hhas.
  rewrite bind_run.
  pose proof (validateConfigFieldOptions_state c s) as Hst.
  destruct (validateConfigFieldOptions c s) as [[[]|e'] s1]; simpl in *; subst s1.
  - discriminate Hbad.
  - by injection Hbad as ->.
Qed.

Lemma add_finish_run c s0 reads inst :
  fields_ok (heap s0) c = true ->
  let l0 := length (heap s0) in
  let s := {| heap := heap s0 ++ [inst];
              configs := amap_set class_eqb c l0 (configs s0);
              yamlReads := reads |} in
  (validateRequiredConfigValues (Some l0) c ;;
   inst' ← new c;
   configs_set c inst' ;;
   configs_get c) s = add_finish c s0 reads inst.
Proof.
  intros Hok l0 s. pose proof (fields_ok_valid _ _ Hok) as Hvalid.
  rewrite bind_run, validateRequiredConfigValues_run by by eapply fields_ok_nonempty.
  unfold add_finish. fold l0. subst s. simpl.
  unfold l0 at 1. rewrite deref_in_fresh, required_missing_app by done.
  destruct (find _ (cfields c)) as [f|] eqn:Hfind.
  - apply find_some in Hfind as [Hin _].
    rewrite List.Forall_forall in Hvalid. by rewrite deref_in_app_l by by apply Hvalid.
  - unfold new, configs_set, configs_get.
    cbv [mbind M_bind mret M_ret get_state put_heap put_configs alloc set_heap set_configs].
    simpl. rewrite (amap_get_set_eq _ class_eqb_refl).
    rewrite length_app. simpl. rewrite Nat.add_1_r. fold l0.
    by rewrite <- app_assoc.
Qed.

Lemma add_run w c o s :
  amap_has class_eqb c (configs s) = false ->
  fields_ok (heap s) c = true ->
  add w c o s = add_outcome w c o s.
Proof.
  intros Hhas Hok. pose proof (fields_ok_valid _ _ Hok) as Hvalid.
  unfold add. rewrite bind_run. unfold configs_has at 1. rewrite bind_run. simpl.
  rewrite Hhas. rewrite bind_run.
  pose proof (validateConfigFieldOptions_state c s) as Hst.
  pose proof (proj2 (validateConfigFieldOptions_ok c s) Hok) as Hres.
  destruct (validateConfigFieldOptions c s) as [r s1]. simpl in Hst, Hres. subst r s1.
  rewrite bind_run. unfold new. rewrite alloc_run.
  rewrite bind_run. unfold configs_set at 1. rewrite bind_run. simpl.
  rewrite bind_run. unfold configs_get at 1. rewrite bind_run. simpl.
  rewrite (amap_get_set_eq _ class_eqb_refl).
  rewrite bind_run. unfold getConfigValueNames. rewrite bind_run. simpl.
  rewrite configValueNames_in_app by done.
  set (m := configValueNames_in (heap s) (cfields c)).
  unfold add_outcome. fold m.
  destruct (truthy_path (configYmlPath o)) as [path|].
  - rewrite !bind_run. unfold loadConfigfromYaml. rewrite bind_run. simpl.
    destruct (yamlFiles w path) as [y|]; [|done].
    rewrite ret_run.
    rewrite (overlay_loop_run m (fun key _ => obj_get key y)) by apply known_keys_known.
    rewrite bind_run.
    rewrite (overlay_loop_run m (fun key cvo => loadEnvironmentVariable w key (type cvo)))
      by apply known_keys_known.
    simpl. rewrite list_alter_alter_eq, alter_fresh. simpl.
    exact (add_finish_run c s (yamlReads s ++ [path]) _ Hok).
  - rewrite !bind_run, ret_run. rewrite bind_run.
    rewrite (overlay_loop_run m (fun key cvo => loadEnvironmentVariable w key (type cvo)))
      by apply known_keys_known.
    simpl. rewrite alter_fresh.
    exact (add_finish_run c s (yamlReads s) _ Hok).
Qed.

(** The three ways a call of [add] can go. *)
Lemma add_cases w c o s :
  (amap_has class_eqb c (configs s) = true /\
   add w c o s = (Err (AlreadyRegisteredError (cname c)), s)) \/
  (amap_has class_eqb c (configs s) = false /\
   exists e, (validateConfigFieldOptions c s).1 = Err e /\ add w c o s = (Err e, s)) \/
  (amap_has class_eqb c (configs s) = false /\ fields_ok (heap s) c = true /\
   add w c o s = add_outcome w c o s).
Proof.
  destruct (amap_has class_eqb c (configs s)) eqn:Hhas.
  - left. split; [done|]. by apply add_registered.
  - right. destruct (validateConfigFieldOptions c s).1 as [[]|e] eqn:Hv.
    + right. apply validateConfigFieldOptions_ok in Hv. split; [done|]. split; [done|].
      by apply add_run.
    + left. split; [done|]. exists e. split; [done|]. by apply add_invalid.
Qed.

(** A successful [add] hands out, and registers, an instance that holds the
    in-class defaults and nothing else. *)
Lemma add_ok_instance w c o s r s' :
  add w c o s = (Ok r, s') ->
  r = Some (S (length (heap s))) /\
  heap s' !! S (length (heap s)) = Some (cdefaults c) /\
  amap_get class_eqb c (configs s') = Some (S (length (heap s))).
Proof.
  intros Hadd.
  destruct (add_cases w c o s) as [[_ H]|[(_ & e & _ & H)|(_ & _ & H)]];
    rewrite H in Hadd; try discriminate Hadd.
  unfold add_outcome, add_finish in Hadd.
  repeat match type of Hadd with
         | context [match ?x with _ => _ end] => destruct x
         end; try discriminate Hadd.
  all: injection Hadd as <- <-; simpl; split; [done|]; split;
    [|apply (amap_get_set_eq _ class_eqb_refl)].
  all: rewrite (lookup_app_r (heap s)) by (simpl; lia).
  all: by replace (S (length (heap s)) - length (heap s)) with 1 by lia.
Qed.

(** ** Precedence on the overlaid instance *)

Lemma amap_get_set_string {V} (j k : string) (v : V) m :
  amap_get String.eqb j (amap_set String.eqb k v m)
  = if String.eqb k j then Some v else amap_get String.eqb j m.
Proof.
  destruct (String.eqb_spec k j) as [->|Hne].
  - apply (amap_get_set_eq _ String.eqb_refl).
  - apply (amap_get_set_ne _ string_eqb_cong). by apply String.eqb_neq.
Qed.

Lemma amap_get_keys {V} (k : string) (m : list (string * V)) :
  amap_get String.eqb k m = None <-> ~ In k (amap_keys m).
Proof.
  unfold amap_keys. induction m as [|[k' v] m IH]; simpl; [by split; auto|].
  destruct (String.eqb_spec k' k) as [->|Hne].
  - split; [discriminate|]. intros H. destruct H. by left.
  - rewrite IH. split; [intros H [E|E]; auto|intros H E; apply H; by right].
Qed.

Lemma configValueNames_in_snoc h fields f :
  configValueNames_in h (fields ++ [f])
  = match obj_get "name" (deref_in h f.2) with
    | VString n =>
        amap_set String.eqb n {| property := f.1; type := obj_get "type" (deref_in h f.2) |}
                 (configValueNames_in h fields)
    | _ => configValueNames_in h fields
    end.
Proof. unfold configValueNames_in. rewrite fold_left_app. by destruct f. Qed.

(** A declared field is found under its config name. *)
Lemma configValueNames_in_lookup h fields p l :
  NoDup (map (named h) fields) ->
  Forall (fun f : string * loc => obj_get "name" (deref_in h f.2) = VString (named h f)) fields ->
  In (p, l) fields ->
  amap_get String.eqb (named h (p, l)) (configValueNames_in h fields)
  = Some {| property := p; type := obj_get "type" (deref_in h l) |}.
Proof.
  induction fields as [|f fields IH] using rev_ind; intros Hnd Hnames Hin; [done|].
  rewrite configValueNames_in_snoc.
  rewrite map_app in Hnd. apply list.NoDup_app in Hnd as (Hnd & Hdisj & _).
  apply Forall_app in Hnames as [Hnames Hf]. apply Forall_inv in Hf. rewrite Hf.
  rewrite amap_get_set_string. apply in_app_or in Hin as [Hin|[->|[]]].
  - destruct (String.eqb_spec (named h f) (named h (p, l))) as [E|_]; [|by apply IH].
    exfalso. apply (Hdisj (named h (p, l))).
    + apply list_elem_of_In, in_map_iff. by exists (p, l).
    + rewrite <- E. simpl. by left.
  - by rewrite String.eqb_refl.
Qed.

(** What is found under a config name is a declared field of that name. *)
Lemma configValueNames_in_inv h fields k cvo :
  amap_get String.eqb k (configValueNames_in h fields) = Some cvo ->
  exists l, In (property cvo, l) fields /\ obj_get "name" (deref_in h l) = VString k.
Proof.
  induction fields as [|f fields IH] using rev_ind; [done|].
  rewrite configValueNames_in_snoc. intros Hget.
  assert (amap_get String.eqb k (configValueNames_in h fields) = Some cvo ->
          exists l, In (property cvo, l) (fields ++ [f])
                    /\ obj_get "name" (deref_in h l) = VString k) as Hold.
  { intros (l & Hin & Hn)%IH. exists l. split; [|done]. apply in_or_app. by left. }
  destruct (obj_get "name" (deref_in h f.2)) as [|n| |] eqn:Hname; auto.
  rewrite amap_get_set_string in Hget.
  destruct (String.eqb_spec n k) as [->|_]; auto.
  injection Hget as <-. exists f.2. split; [|done].
  apply in_or_app. right. simpl. left. by destruct f.
Qed.

Section OverlayOneProperty.
Context (m : list (string * ConfigValueOptions)) (val : string -> ConfigValueOptions -> Value).
Context (p n : string) (cvo : ConfigValueOptions).
Hypothesis n_mapped : amap_get String.eqb n m = Some cvo.
Hypothesis n_writes_p : property cvo = p.
Hypothesis only_n_writes_p :
  forall k cvo', amap_get String.eqb k m = Some cvo' -> property cvo' = p -> k = n.

Lemma overlay_keys_miss keys o :
  ~ In n keys -> obj_get p (overlay_keys m val keys o) = obj_get p o.
Proof using only_n_writes_p.
  revert o. induction keys as [|k keys IH]; intros o Hn; [done|].
  unfold overlay_keys in *. simpl. rewrite IH by (intros H; apply Hn; by right).
  destruct (amap_get String.eqb k m) as [cvo'|] eqn:Hk; [|done].
  apply obj_get_set_ne. intros Hp. apply Hn. left. by eapply only_n_writes_p.
Qed.

Lemma overlay_keys_hit keys o :
  In n keys -> obj_get p (overlay_keys m val keys o) = val n cvo.
Proof using n_mapped n_writes_p only_n_writes_p.
  revert o. induction keys as [|k keys IH]; intros o Hn; [done|].
  destruct (in_dec String.string_dec n keys) as [Hin|Hout].
  - unfold overlay_keys in *. simpl. by apply IH.
  - destruct Hn as [->|Hn]; [|done].
    change (overlay_keys m val (n :: keys) o)
      with (overlay_keys m val keys
              match amap_get String.eqb n m with
              | Some cvo' => obj_set (property cvo') (val n cvo') o
              | None => o
              end).
    rewrite overlay_keys_miss by done. rewrite n_mapped, n_writes_p.
    apply obj_get_set_eq.
Qed.

Lemma known_keys_in keys : In n (known_keys m keys) <-> In n keys.
Proof using n_mapped.
  unfold known_keys. rewrite filter_In. unfold amap_has. rewrite n_mapped.
  split; [by intros [Hk _]|by intros Hk].
Qed.
End OverlayOneProperty.

(** On the instance that [add] overlays, every field of a class with
    distinct fields holds the coerced environment value when the variable is
    set, else the YAML value when the file has the key, else the in-class
    default. *)
Lemma overlaid_precedence w c o h inst p l :
  fields_distinct h c ->
  In (p, l) (cfields c) ->
  overlaid w c o h = Some inst ->
  obj_get p inst =
    match amap_get String.eqb (named h (p, l)) (processEnv w) with
    | Some raw => coerce w raw (obj_get "type" (deref_in h l))
    | None =>
        match yaml_source w o with
        | Some y =>
            match amap_get String.eqb (named h (p, l)) y with
            | Some v => v
            | None => obj_get p (cdefaults c)
            end
        | None => obj_get p (cdefaults c)
        end
    end.
Proof.
  intros (Hprops & Hnames & Hstr) Hin Hinst.
  set (n := named h (p, l)). set (m := configValueNames_in h (cfields c)).
  pose proof (configValueNames_in_lookup h _ p l Hnames Hstr Hin) as Hn. fold n m in Hn.
  assert (forall k cvo', amap_get String.eqb k m = Some cvo' -> property cvo' = p -> k = n)
    as Honly.
  { intros k cvo' (l' & Hin' & Hk)%configValueNames_in_inv Hp. rewrite Hp in Hin'.
    assert (l' = l) as ->.
    { clear -Hprops Hin Hin'. induction (cfields c) as [|[q k] fs IH]; [done|].
      simpl in *. apply list.NoDup_cons in Hprops as [Hq Hprops].
      destruct Hin as [Hin|Hin], Hin' as [Hin'|Hin'].
      - congruence.
      - injection Hin as -> ->. exfalso.
        apply Hq, list_elem_of_In, in_map_iff. by exists (p, l').
      - injection Hin' as -> ->. exfalso.
        apply Hq, list_elem_of_In, in_map_iff. by exists (p, l).
      - by apply IH. }
    unfold n, named, name_of. simpl. by rewrite Hk. }
  assert (forall o', obj_get p (env_layer w m o') =
            match amap_get String.eqb n (processEnv w) with
            | Some raw => coerce w raw (obj_get "type" (deref_in h l))
            | None => obj_get p o'
            end) as Henv.
  { intros o'. unfold env_layer.
    destruct (amap_get String.eqb n (processEnv w)) as [raw|] eqn:Hraw.
    - rewrite (overlay_keys_hit m _ p n _ Hn eq_refl Honly).
      + unfold loadEnvironmentVariable. by rewrite Hraw.
      + apply (known_keys_in m n _ Hn). unfold getEnvironmentVariableKeys.
        destruct (in_dec String.string_dec n (amap_keys (processEnv w))) as [|Hout]; [done|].
        apply amap_get_keys in Hout. congruence.
    - apply (overlay_keys_miss m _ p n Honly).
      rewrite (known_keys_in m n _ Hn). by apply amap_get_keys. }
  unfold overlaid in Hinst. unfold yaml_source. fold m in Hinst.
  destruct (truthy_path (configYmlPath o)) as [path|];
    [destruct (yamlFiles w path) as [y|]; [|discriminate Hinst]|].
  all: injection Hinst as <-; rewrite Henv; try done.
  destruct (amap_get String.eqb n (processEnv w)); [done|]. unfold yaml_layer.
  destruct (amap_get String.eqb n y) as [v|] eqn:Hy.
  - rewrite (overlay_keys_hit m _ p n _ Hn eq_refl Honly).
    + unfold obj_get. by rewrite Hy.
    + apply (known_keys_in m n _ Hn).
      destruct (in_dec String.string_dec n (obj_keys y)) as [|Hout]; [done|].
      apply amap_get_keys in Hout. congruence.
  - apply (overlay_keys_miss m _ p n Honly).
    rewrite (known_keys_in m n _ Hn). by apply amap_get_keys.
Qed.

(** ** Claims about [add] *)

(** C6: [add] puts the new instance into the registry before the YAML
    overlay, the environment overlay and the required-field check run.  When
    a call that got as far as creating the instance then fails, the class
    stays registered: [get] returns the instance created first, which holds
    the in-class defaults when the YAML file was missing, and the overlaid
    values when a required field was missing. *)
Theorem add_failure_keeps_partial_instance w c o s e s' :
  amap_has class_eqb c (configs s) = false ->
  (validateConfigFieldOptions c s).1 = Ok tt ->
  add w c o s = (Err e, s') ->
  get c s' = (Ok (Some (length (heap s))), s') /\
  match overlaid w c o (heap s) with
  | None => (exists path, e = MissingYamlFile path) /\
            heap s' !! length (heap s) = Some (cdefaults c)
  | Some inst => (exists field, e = MissingRequiredFieldError field) /\
                 heap s' !! length (heap s) = Some inst
  end.
Proof.
  intros Hhas Hok%validateConfigFieldOptions_ok Hadd.
  rewrite add_run in Hadd by done. rewrite get_run.
  unfold add_outcome, add_finish in Hadd. unfold overlaid.
  destruct (truthy_path (configYmlPath o)) as [path|];
    [destruct (yamlFiles w path) as [y|]|].
  all: try destruct (find _ (cfields c)) as [f|]; try discriminate Hadd.
  all: injection Hadd as <- <-; simpl.
  all: rewrite (amap_get_set_eq _ class_eqb_refl), list_lookup_middle by done.
  all: eauto.
Qed.

Lemma add_failure_keeps_partial_instance_witness :
  let s' := (add Examples.bare Examples.Communicator Examples.noOptions Examples.init).2 in
  amap_has class_eqb Examples.Communicator (configs Examples.init) = false /\
  (validateConfigFieldOptions Examples.Communicator Examples.init).1 = Ok tt /\
  add Examples.bare Examples.Communicator Examples.noOptions Examples.init
    = (Err (MissingRequiredFieldError "GREETING"), s') /\
  get Examples.Communicator s' = (Ok (Some 3), s') /\
  heap s' !! 3 = Some [].
Proof.
  intros s'.
  pose proof (add_failure_keeps_partial_instance Examples.bare Examples.Communicator
                Examples.noOptions Examples.init (MissingRequiredFieldError "GREETING") s'
                eq_refl eq_refl eq_refl) as [Hget [_ Hinst]].
  do 3 (split; [reflexivity|]). split; [exact Hget|exact Hinst].
Defined.





(** The outcome of [add] does not look at the YAML files when the path is
    falsy. *)
Lemma add_outcome_no_path w files c o s :
  truthy_path (configYmlPath o) = None ->
  add_outcome {| yamlFiles := files; processEnv := processEnv w; coerce := coerce w |} c o s
  = add_outcome w c o s.
Proof. intros H. unfold add_outcome. by rewrite H. Qed.

Lemma truthy_path_falsy o :
  configYmlPath o = None \/ configYmlPath o = Some "" ->
  truthy_path (configYmlPath o) = None.
Proof. by intros [-> | ->]. Qed.

(** C8: when [options.configYmlPath] is omitted or is the empty string, the
    YAML step is skipped: no file is handed to the loader, the call comes out
    the same whatever the files hold, and the instance that [add] creates
    first receives the environment layer directly over the in-class
    defaults. *)
Theorem add_without_yaml_path w c o s :
  configYmlPath o = None \/ configYmlPath o = Some "" ->
  yamlReads (add w c o s).2 = yamlReads s /\
  (forall files,
     add {| yamlFiles := files; processEnv := processEnv w; coerce := coerce w |} c o s
     = add w c o s) /\
  (amap_has class_eqb c (configs s) = false ->
   (validateConfigFieldOptions c s).1 = Ok tt ->
   heap (add w c o s).2 !! length (heap s)
   = Some (env_layer w (configValueNames_in (heap s) (cfields c)) (cdefaults c))).
Proof.
  intros Hpath%truthy_path_falsy. split; [|split].
  - destruct (add_cases w c o s) as [[_ H]|[(_ & e & _ & H)|(_ & _ & H)]];
      rewrite H; try done.
    unfold add_outcome, add_finish. rewrite Hpath.
    by destruct (find _ (cfields c)).
  - intros files.
    destruct (add_cases w c o s) as [[Hhas H]|[(Hhas & e & He & H)|(Hhas & Hok & H)]];
      rewrite H.
    + by apply add_registered.
    + by apply add_invalid.
    + rewrite add_run by done. by apply add_outcome_no_path.
  - intros Hhas Hok%validateConfigFieldOptions_ok. rewrite add_run by done.
    unfold add_outcome, add_finish. rewrite Hpath.
    destruct (find _ (cfields c)); simpl.
    + by rewrite list_lookup_middle.
    + by rewrite (list_lookup_middle (heap s) [cdefaults c]).
Qed.

Lemma add_without_yaml_path_witness :
  configYmlPath Examples.emptyPath = Some "" /\
  yamlReads (add Examples.withBoth Examples.ExampleClass Examples.emptyPath Examples.init).2
  = [] /\
  heap (add Examples.withBoth Examples.ExampleClass Examples.emptyPath Examples.init).2 !! 3
  = Some [("propertyDefaultHelloWorld", VString "HeyWorld")].
Proof.
  pose proof (add_without_yaml_path Examples.withBoth Examples.ExampleClass
                Examples.emptyPath Examples.init (or_intror eq_refl)) as (Hreads & _ & Hinst).
  split; [reflexivity|]. split; [exact Hreads|]. exact (Hinst eq_refl eq_refl).
Defined.

(** ** What callers can do, and what it leaves in place *)

Lemma call_add_or_other call :
  (exists w c o, call = CallAdd w c o) \/ call = CallRemoveAll \/
  ((forall w c o, call <> CallAdd w c o) /\ call <> CallRemoveAll).
Proof. destruct call; eauto; right; right; done. Qed.

(** Every call but [add] and [removeAll] leaves the registry map alone and
    the store no smaller. *)
Lemma step_settled s call :
  (forall w c o, call <> CallAdd w c o) -> call <> CallRemoveAll ->
  settled s (step s call).
Proof.
  intros Hcall Hcall'. destruct call; simpl; [by destruct (Hcall w c o)| | | | |done| |].
  - exact (preserves_get settled c s).
  - exact (preserves_getConfigsDefintions settled settled_alloc settled_alter s).
  - exact (preserves_takeSnapshot settled settled_alloc settled_alter c s).
  - exact (preserves_restoreSnapshot settled settled_alloc settled_alter c snapshot s).
  - exact (preserves_assign settled settled_alter (Some l) p v s).
  - exact (preserves_alloc settled settled_alloc o s).
Qed.

Lemma step_same_configs s call :
  (forall w c o, call <> CallAdd w c o) -> call <> CallRemoveAll ->
  configs (step s call) = configs s.
Proof. intros H H'. by destruct (step_settled s call H H'). Qed.

(** What [add] does to the registry map. *)
Lemma add_configs w c o s :
  configs (add w c o s).2 = configs s \/
  amap_has class_eqb c (configs s) = false /\ fields_ok (heap s) c = true /\
  exists l, (configs (add w c o s).2 = amap_set class_eqb c l (configs s) \/
             exists l', configs (add w c o s).2
                        = amap_set class_eqb c l (amap_set class_eqb c l' (configs s))).
Proof.
  destruct (add_cases w c o s) as [[_ H]|[(_ & e & _ & H)|(Hhas & Hok & H)]];
    rewrite H; [by left|by left|]. right. split; [done|]. split; [done|].
  unfold add_outcome, add_finish.
  repeat match goal with
         | |- context [match ?x with _ => _ end] => destruct x
         end; simpl; eauto.
Qed.

(** A registered class keeps its instance through every call that does not
    clear the registry. *)
Lemma step_keeps_instance c l s call :
  keeps_classes call = true ->
  amap_get class_eqb c (configs s) = Some l ->
  amap_get class_eqb c (configs (step s call)) = Some l.
Proof.
  intros Hkeeps Hget.
  destruct (call_add_or_other call) as [(w & c' & o & ->)|[->|[Hother Hother']]];
    [|discriminate Hkeeps|by rewrite step_same_configs].
  simpl. destruct (add_configs w c' o s) as [H|(Hhas & _ & l1 & H)]; [by rewrite H|].
  assert (class_eqb c' c = false) as Hne.
  { destruct (class_eqb c' c) eqn:E; [|done].
    unfold amap_has in Hhas. by rewrite (configs_get_cong _ _ _ E), Hget in Hhas. }
  destruct H as [H|[l2 H]]; rewrite H.
  - by rewrite (amap_get_set_ne _ class_eqb_cong).
  - by rewrite !(amap_get_set_ne _ class_eqb_cong).
Qed.

Lemma run_keeps_instance c l calls s :
  forallb keeps_classes calls = true ->
  amap_get class_eqb c (configs s) = Some l ->
  amap_get class_eqb c (configs (run calls s)) = Some l.
Proof.
  revert s. induction calls as [|call calls IH]; intros s Hkeeps Hget; [done|].
  simpl in *. apply andb_true_iff in Hkeeps as [Hcall Hkeeps].
  apply IH; [done|]. by apply step_keeps_instance.
Qed.

(** C10: the instance that a successful [add] returns is the object that
    every later [get] of the class returns, whatever calls come in between,
    as long as none of them clears the registry. *)
Theorem add_result_is_the_registered_instance w c o s r s' calls :
  add w c o s = (Ok r, s') ->
  forallb keeps_classes calls = true ->
  exists l, r = Some l /\ get c (run calls s') = (Ok (Some l), run calls s').
Proof.
  intros (-> & _ & Hget)%add_ok_instance Hkeeps. eexists. split; [done|].
  rewrite get_run. by rewrite (run_keeps_instance _ _ _ _ Hkeeps Hget).
Qed.

Lemma add_result_is_the_registered_instance_witness :
  let s' := (add Examples.withEnv Examples.ExampleClass Examples.noOptions Examples.init).2 in
  let calls := [CallGet Examples.ExampleClass;
                SetProperty 4 "propertyDefaultHelloWorld" (VString "Hey World!");
                CallAdd Examples.bare Examples.ExtraExampleClass Examples.noOptions;
                CallAdd Examples.bare Examples.ExampleClass Examples.noOptions;
                CallTakeSnapshot Examples.ExampleClass;
                CallRestoreSnapshot Examples.ExampleClass 7;
                CallGetConfigsDefintions] in
  add Examples.withEnv Examples.ExampleClass Examples.noOptions Examples.init
    = (Ok (Some 4), s') /\
  forallb keeps_classes calls = true /\
  exists l, Some 4 = Some l /\
    get Examples.ExampleClass (run calls s') = (Ok (Some l), run calls s').
Proof.
  intros s' calls. split; [reflexivity|]. split; [reflexivity|].
  apply (add_result_is_the_registered_instance Examples.withEnv Examples.ExampleClass
           Examples.noOptions Examples.init); reflexivity.
Defined.

(** ** The definitions export *)

Lemma copy_loop_run (fields : list (string * loc)) defs s :
  forallb (fun f : string * loc => Nat.ltb f.2 (length (heap s))) fields = true ->
  foldM (fun defs '(_, l) =>
           configValueOptions ← deref l;
           copy ← alloc (spread configValueOptions);
           mret (defs ++ [copy])) fields defs s
  = (Ok (defs ++ seq (length (heap s)) (length fields)),
     set_heap (heap s ++ map (deref_in (heap s)) (map snd fields)) s).
Proof.
  revert defs s. induction fields as [|[p l] fields IH]; intros defs s Hv; simpl.
  - by rewrite !app_nil_r, set_heap_id.
  - simpl in Hv. apply andb_true_iff in Hv as [Hl%Nat.ltb_lt Hv].
    rewrite !bind_run, deref_run, bind_run, alloc_run. simpl. rewrite IH; simpl.
    + rewrite length_app. simpl. rewrite Nat.add_1_r, <- !app_assoc. simpl.
      unfold set_heap, spread. simpl. do 4 f_equal.
      apply map_ext_in. intros k Hk. apply deref_in_app_l.
      apply in_map_iff in Hk as (f & <- & Hf).
      rewrite forallb_forall in Hv. by apply Nat.ltb_lt, Hv.
    + rewrite forallb_forall in Hv |- *. intros f Hf. apply Nat.ltb_lt.
      rewrite length_app. specialize (Hv f Hf). apply Nat.ltb_lt in Hv. lia.
Qed.

Lemma fields_in_store_app h h' c :
  fields_in_store h c = true -> fields_in_store (h ++ h') c = true.
Proof.
  unfold fields_in_store. intros [Hn Hv]%andb_true_iff. rewrite Hn. simpl.
  rewrite forallb_forall in Hv |- *. intros f Hf. apply Nat.ltb_lt.
  specialize (Hv f Hf). apply Nat.ltb_lt in Hv. rewrite length_app. lia.
Qed.

Lemma definitions_loop_run (cs : list (ClassType * loc)) defs s :
  forallb (fun cl : ClassType * loc => fields_in_store (heap s) cl.1) cs = true ->
  foldM (fun configPropertyDefinitions '(clazz, _) =>
           fields ← getConfigValueOptionsMap clazz;
           foldM (fun defs '(_, l) =>
                    configValueOptions ← deref l;
                    copy ← alloc (spread configValueOptions);
                    mret (defs ++ [copy]))
                 fields configPropertyDefinitions) cs defs s
  = (Ok (defs ++ seq (length (heap s)) (length (declared cs))),
     set_heap (heap s ++ map (deref_in (heap s)) (declared cs)) s).
Proof.
  revert defs s. induction cs as [|[c l] cs IH]; intros defs s Hok; simpl.
  - by rewrite !app_nil_r, set_heap_id.
  - simpl in Hok. apply andb_true_iff in Hok as [Hc Hok].
    pose proof Hc as [Hn Hv]%andb_true_iff.
    rewrite !bind_run, getConfigValueOptionsMap_run
      by (intros E; by rewrite E in Hn).
    rewrite copy_loop_run by done. rewrite IH; simpl.
    + rewrite !length_app, !length_map, seq_app, map_app, <- !app_assoc.
      unfold set_heap. simpl. do 4 f_equal.
      apply map_ext_in. intros k Hk. apply deref_in_app_l.
      unfold declared in Hk. apply in_flat_map in Hk as ([c' l'] & Hc' & Hk).
      apply in_map_iff in Hk as (f' & <- & Hf').
      rewrite forallb_forall in Hok. specialize (Hok _ Hc').
      apply andb_true_iff in Hok as [_ Hok]. rewrite forallb_forall in Hok.
      by apply Nat.ltb_lt, Hok.
    + rewrite forallb_forall in Hok |- *. intros cl Hcl.
      by apply fields_in_store_app, Hok.
Qed.

Lemma getConfigsDefintions_run s :
  registry_ok s = true ->
  getConfigsDefintions s
  = (Ok (seq (length (heap s)) (length (declared (configs s)))),
     set_heap (heap s ++ map (deref_in (heap s)) (declared (configs s))) s).
Proof.
  intros Hok. unfold getConfigsDefintions. rewrite bind_run. simpl.
  by rewrite definitions_loop_run.
Qed.

(** *** The registry stays in order *)

Lemma fields_in_store_grows h h' c :
  length h <= length h' -> fields_in_store h c = true -> fields_in_store h' c = true.
Proof.
  unfold fields_in_store. intros Hle [Hn Hv]%andb_true_iff. rewrite Hn. simpl.
  rewrite forallb_forall in Hv |- *. intros f Hf. apply Nat.ltb_lt.
  specialize (Hv f Hf). apply Nat.ltb_lt in Hv. lia.
Qed.

Lemma fields_ok_in_store h c : fields_ok h c = true -> fields_in_store h c = true.
Proof.
  intros Hok. unfold fields_in_store. apply andb_true_iff. split.
  - unfold fields_ok in Hok. by apply andb_true_iff in Hok as [Hn _].
  - apply forallb_forall. intros f Hf. apply Nat.ltb_lt.
    pose proof (fields_ok_valid _ _ Hok) as Hv. rewrite List.Forall_forall in Hv. by apply Hv.
Qed.

Lemma registry_ok_set (Q : ClassType -> bool) c l (m : list (ClassType * loc)) :
  forallb (fun cl : ClassType * loc => Q cl.1) m = true -> Q c = true ->
  forallb (fun cl : ClassType * loc => Q cl.1) (amap_set class_eqb c l m) = true.
Proof.
  intros Hm Hc. induction m as [|[k v] m IH]; simpl in *.
  - by rewrite Hc.
  - apply andb_true_iff in Hm as [Hk Hm]. destruct (class_eqb k c); simpl; rewrite Hk; auto.
Qed.

Lemma registry_ok_grows s s' :
  settled s s' -> registry_ok s = true -> registry_ok s' = true.
Proof.
  unfold registry_ok. intros [-> Hle] Hok. rewrite forallb_forall in Hok |- *.
  intros cl Hcl. eapply fields_in_store_grows; eauto.
Qed.

(** A registry without classes is in order, and every call keeps it so. *)
Lemma registry_ok_empty s : configs s = [] -> registry_ok s = true.
Proof. unfold registry_ok. by intros ->. Qed.

Lemma registry_ok_step s call : registry_ok s = true -> registry_ok (step s call) = true.
Proof.
  intros Hok.
  destruct (call_add_or_other call) as [(w & c & o & ->)|[->|[Hother Hother']]];
    [|done|by eapply registry_ok_grows; [apply step_settled|]].
  simpl.
  destruct (add_cases w c o s) as [[_ H]|[(_ & e & _ & H)|(_ & Hc & H)]];
    rewrite H; try done.
  assert (forall h,
    forallb (fun cl : ClassType * loc => fields_in_store (heap s ++ h) cl.1) (configs s) = true)
    as Hold.
  { intros h. unfold registry_ok in Hok. rewrite forallb_forall in Hok |- *.
    intros cl Hcl. by apply fields_in_store_app, Hok. }
  pose proof (fun h => fields_in_store_app _ h _ (fields_ok_in_store _ _ Hc)) as Hnew.
  unfold add_outcome, add_finish, registry_ok.
  repeat match goal with
         | |- context [match ?x with _ => _ end] => destruct x
         end; simpl.
  all: repeat apply (registry_ok_set (fields_in_store _)); auto.
Qed.

Lemma registry_ok_run calls s : registry_ok s = true -> registry_ok (run calls s) = true.
Proof.
  revert s. induction calls as [|call calls IH]; intros s Hok; [done|].
  simpl. by apply IH, registry_ok_step.
Qed.

(** A class that [add] accepts goes to the end of the registry map. *)
Lemma add_ok_appends_class w c o s r s' :
  add w c o s = (Ok r, s') -> amap_keys (configs s') = amap_keys (configs s) ++ [c].
Proof.
  intros Hadd.
  destruct (add_cases w c o s) as [[_ H]|[(_ & e & _ & H)|(Hhas & _ & H)]];
    rewrite H in Hadd; try discriminate Hadd.
  unfold add_outcome, add_finish in Hadd.
  repeat match type of Hadd with
         | context [match ?x with _ => _ end] => destruct x
         end; try discriminate Hadd.
  all: injection Hadd as <- <-; simpl.
  all: rewrite amap_keys_set_present, amap_keys_set_absent; try done.
  all: unfold amap_has; by rewrite (amap_get_set_eq _ class_eqb_refl).
Qed.

Lemma deref_in_fresh_seq h (os : list Obj) :
  map (deref_in (h ++ os)) (seq (length h) (length os)) = os.
Proof.
  revert h. induction os as [|o os IH]; intros h; simpl; [done|]. f_equal.
  - unfold deref_in. by rewrite list_lookup_middle.
  - specialize (IH (h ++ [o])). rewrite <- app_assoc, length_app in IH. simpl in IH.
    by rewrite Nat.add_1_r in IH.
Qed.

(** C9: [getConfigsDefintions] returns no entry for a registry without
    classes; otherwise it returns one new object per declared field of the
    registered classes, classes in registration order and fields in
    declaration order, each holding what the field's options object holds.
    The entries are objects of their own: the call changes no object that
    existed before, and a later write to an entry leaves every such object,
    the field metadata included, as it was. *)
Theorem getConfigsDefintions_copies_declared_fields s :
  registry_ok s = true ->
  exists defs s',
    getConfigsDefintions s = (Ok defs, s') /\
    (configs s = [] -> defs = []) /\
    map (deref_in (heap s')) defs = map (deref_in (heap s)) (declared (configs s)) /\
    configs s' = configs s /\
    NoDup defs /\
    (forall d l, In d defs -> In l (declared (configs s)) -> d <> l) /\
    (forall l, l < length (heap s) -> heap s' !! l = heap s !! l) /\
    (forall d p v l, In d defs -> l < length (heap s) ->
       heap (assign (Some d) p v s').2 !! l = heap s !! l).
Proof.
  intros Hok. rewrite getConfigsDefintions_run by done. eexists _, _. split; [done|].
  assert (forall l, In l (declared (configs s)) -> l < length (heap s)) as Hdecl.
  { intros l Hl. unfold declared in Hl. apply in_flat_map in Hl as ([c k] & Hc & Hl).
    apply in_map_iff in Hl as (f & <- & Hf).
    unfold registry_ok in Hok. rewrite forallb_forall in Hok. specialize (Hok _ Hc).
    apply andb_true_iff in Hok as [_ Hv]. rewrite forallb_forall in Hv.
    by apply Nat.ltb_lt, Hv. }
  simpl. repeat split.
  - by intros ->.
  - rewrite <- (length_map (deref_in (heap s)) (declared (configs s))).
    apply deref_in_fresh_seq.
  - apply NoDup_seq.
  - intros d l Hd%in_seq Hl%Hdecl. lia.
  - intros l Hl. by rewrite lookup_app_l.
  - intros d p v l Hd%in_seq Hl. rewrite list_lookup_alter_ne by lia.
    by rewrite lookup_app_l.
Qed.

Lemma getConfigsDefintions_copies_declared_fields_witness :
  let s := run [CallAdd Examples.bare Examples.ExampleClass Examples.noOptions;
                CallAdd Examples.bare Examples.ExtraExampleClass Examples.noOptions]
               Examples.init in
  registry_ok s = true /\
  exists defs s',
    getConfigsDefintions s = (Ok defs, s') /\
    (configs s = [] -> defs = []) /\
    map (deref_in (heap s')) defs = map (deref_in (heap s)) (declared (configs s)) /\
    configs s' = configs s /\
    NoDup defs /\
    (forall d l, In d defs -> In l (declared (configs s)) -> d <> l) /\
    (forall l, l < length (heap s) -> heap s' !! l = heap s !! l) /\
    (forall d p v l, In d defs -> l < length (heap s) ->
       heap (assign (Some d) p v s').2 !! l = heap s !! l).
Proof.
  intros s. split; [reflexivity|].
  apply (getConfigsDefintions_copies_declared_fields s). reflexivity.
Defined.

(** ** Lookup and the snapshots *)

Lemma get_unregistered c s :
  amap_has class_eqb c (configs s) = false ->
  get c s = (Err (NotRegisteredError (cname c)), s).
Proof.
  intros H. rewrite get_run. unfold amap_has in H.
  by destruct (amap_get class_eqb c (configs s)).
Qed.

(** [restoreSnapshot] reaches [get] only from inside its loop: with no key
    to restore it returns, registered class or not. *)
Lemma restoreSnapshot_no_keys c snapshot s :
  deref_in (heap s) snapshot = [] -> restoreSnapshot c snapshot s = (Ok tt, s).
Proof.
  intros H. unfold restoreSnapshot. rewrite !bind_run, deref_run. simpl. by rewrite H.
Qed.

Lemma restore_loop_run c snapshot l keys s :
  amap_get class_eqb c (configs s) = Some l ->
  snapshot <> l ->
  forEach keys (fun property =>
    instance ← get c;
    value ← read (Some snapshot) property;
    assign instance property value) s
  = (Ok tt,
     set_heap (alter (restore_onto (deref_in (heap s) snapshot) keys) l (heap s)) s).
Proof.
  intros Hget Hne. revert s Hget. induction keys as [|p keys IH]; intros s Hget; simpl.
  - rewrite list_alter_id by done. by rewrite set_heap_id.
  - rewrite !bind_run, get_run, Hget, bind_run, read_run, assign_run.
    rewrite IH by done. simpl.
    rewrite deref_in_alter_ne by done. by rewrite list_alter_alter_eq.
Qed.

(** For a registered class [restoreSnapshot] writes the whole snapshot onto
    the instance and returns. *)
Lemma restoreSnapshot_run c snapshot l s :
  amap_get class_eqb c (configs s) = Some l ->
  snapshot <> l ->
  restoreSnapshot c snapshot s
  = (Ok tt,
     set_heap (alter (restore_onto (deref_in (heap s) snapshot)
                                   (obj_keys (deref_in (heap s) snapshot))) l (heap s)) s).
Proof.
  intros Hget Hne. unfold restoreSnapshot. rewrite !bind_run, deref_run. simpl.
  by apply restore_loop_run.
Qed.

(** The only failure of [restoreSnapshot] is the one of [get]. *)
Lemma restoreSnapshot_results c snapshot s :
  (restoreSnapshot c snapshot s).1 = Ok tt \/
  (restoreSnapshot c snapshot s).1 = Err (NotRegisteredError (cname c)).
Proof.
  unfold restoreSnapshot. rewrite !bind_run, deref_run. simpl.
  generalize (obj_keys (deref_in (heap s) snapshot)). intros keys. revert s.
  induction keys as [|p keys IH]; intros s; simpl; [by left|].
  rewrite !bind_run, get_run.
  destruct (amap_get class_eqb c (configs s)) as [l|]; [|by right].
  rewrite bind_run, read_run, assign_run. apply IH.
Qed.

Lemma restoreSnapshot_no_unknown_property c snapshot s p n :
  (restoreSnapshot c snapshot s).1 <> Err (UnknownPropertyError p n).
Proof. destruct (restoreSnapshot_results c snapshot s) as [-> | ->]; discriminate. Qed.

Lemma snapshot_loop_run (fields : list (string * loc)) h o s :
  heap s = h ++ [o] ->
  Forall (fun f : string * loc => f.2 < length h) fields ->
  forEach fields (fun '(property, l) =>
    value ← read (Some l) "value";
    assign (Some (length h)) property value) s
  = (Ok tt, set_heap (h ++ [snapshot_of h fields o]) s).
Proof.
  intros Hs Hv. revert o s Hs. induction Hv as [|[p l] fields Hl _ IH]; intros o s Hs; simpl.
  - by rewrite <- Hs, set_heap_id.
  - simpl in Hl. rewrite !bind_run, read_run, assign_run, Hs, alter_fresh.
    rewrite (IH (obj_set p (obj_get "value" (deref_in (h ++ [o]) l)) o)) by done.
    by rewrite (deref_in_app_l _ _ _ Hl).
Qed.

(** [takeSnapshot] reads the field metadata and nothing else: neither the
    registry map nor any instance enters the snapshot. *)
Lemma takeSnapshot_run c s :
  fields_in_store (heap s) c = true ->
  takeSnapshot c s
  = (Ok (length (heap s)),
     set_heap (heap s ++ [snapshot_of (heap s) (cfields c) []]) s).
Proof.
  intros [Hn Hv]%andb_true_iff. unfold takeSnapshot.
  rewrite bind_run, alloc_run, bind_run, getConfigValueOptionsMap_run
    by (intros E; by rewrite E in Hn).
  rewrite bind_run, (snapshot_loop_run _ (heap s) []); [done|done|].
  apply List.Forall_forall. intros f Hf. rewrite forallb_forall in Hv.
  by apply Nat.ltb_lt, Hv.
Qed.

Lemma obj_keys_set p v o q :
  In q (obj_keys (obj_set p v o)) <-> q = p \/ In q (obj_keys o).
Proof.
  unfold obj_keys, obj_set, amap_keys. induction o as [|[k w] o IH]; simpl.
  - split; [intros [->|[]]; by left|intros [->|[]]; by left].
  - destruct (String.eqb_spec k p) as [->|Hne]; simpl.
    + split; [intros [->|H]; [by left|right; by right]|intros [->|[->|H]]; auto].
    + rewrite IH. split; [intros [->|[->|H]]; auto|intros [->|[->|H]]; auto].
Qed.

(** The keys of a snapshot are the declared property names. *)
Lemma snapshot_of_keys h fields o q :
  In q (obj_keys (snapshot_of h fields o)) <-> In q (map fst fields) \/ In q (obj_keys o).
Proof.
  unfold snapshot_of. revert o. induction fields as [|[p l] fields IH]; intros o; simpl.
  - split; [by right|by intros [[]|H]].
  - rewrite IH, obj_keys_set. simpl. split; [intros [H|[->|H]]; auto|intros [[->|H]|H]; auto].
Qed.

(** ** Where the code and the claims part ways *)

(** C1 (the code departs from the claim): the claim wants the registered
    instance to hold the environment value, else the YAML value, else the
    default.  [add] ends by storing a second, new instance, so what [get]
    returns after a successful [add] holds the default, here ["Hi"], although
    the environment gives ["HeyWorld"] and the YAML file ["Yo World!"]. *)
Theorem add_registers_defaults_only :
  loadEnvironmentVariable Examples.withEnv "HELLO_WORLD" (VString "string")
    = VString "HeyWorld" /\
  (Scenarios.addThenRead Examples.withEnv Examples.noOptions Examples.init).1
    = Ok (VString "Hi") /\
  (Scenarios.addThenRead Examples.withYaml Examples.localPath Examples.init).1
    = Ok (VString "Hi") /\
  (Scenarios.addThenRead Examples.withBoth Examples.localPath Examples.init).1
    = Ok (VString "Hi").
Proof. repeat split; reflexivity. Qed.

(** C2 (the code departs from the claim): the claim wants the snapshot to
    hold the current value of each property of the live instance.
    [takeSnapshot] reads the ["value"] entry of the field's options object
    instead: with ["Hey World!"] on the instance, the snapshot holds
    [undefined] under that property. *)
Theorem takeSnapshot_misses_instance_value :
  (Scenarios.snapshotAfterWrite Examples.init).1 = Ok (VUndefined, VString "Hey World!").
Proof. reflexivity. Qed.

(** C3 (the code departs from the claim): the claim wants
    [restoreSnapshot(class, takeSnapshot(class))] to leave the instance as it
    was.  The round trip writes the snapshot's [undefined] over the property:
    ["Hey World!"] before, [undefined] after. *)
Theorem take_then_restore_changes_instance :
  (Scenarios.takeThenRestore Examples.init).1 = Ok (VString "Hey World!", VUndefined).
Proof. reflexivity. Qed.

(** C4 (the code departs from the claim): the claim wants [restoreSnapshot]
    to fail with [UnknownPropertyError] on a key that is not a declared
    property.  There is no such check: the call returns and the instance has
    gained the property. *)
Theorem restoreSnapshot_accepts_unknown_property :
  amap_has String.eqb "unknownProperty" (cfields Examples.ExampleClass) = false /\
  (Scenarios.restoreUnknown Examples.init).1 = Ok (VString "value").
Proof. split; reflexivity. Qed.

(** C5 (the code departs from the claim): the claim wants [restoreSnapshot]
    on a class that was never registered to fail with [NotRegisteredError]
    for every snapshot, the empty one included.  [get] fails so, but
    [restoreSnapshot] looks the class up only inside its loop over the keys:
    for the empty snapshot it returns. *)
Theorem restoreSnapshot_empty_unregistered_returns :
  get Examples.ExampleClass Examples.init
    = (Err (NotRegisteredError "ExampleClass"), Examples.init) /\
  (Scenarios.restoreEmptyUnregistered Examples.init).1 = Ok tt.
Proof. split; reflexivity. Qed.

(** * Further properties of the registry *)

(** ** [add] *)

Lemma add_registers w c o s :
  amap_has class_eqb c (configs s) = false ->
  fields_ok (heap s) c = true ->
  amap_has class_eqb c (configs (add w c o s).2) = true.
Proof.
  intros Hhas Hok. rewrite add_run by done. unfold add_outcome, add_finish, amap_has.
  repeat match goal with
         | |- context [match ?x with _ => _ end] =>
             lazymatch x with
             | amap_get _ _ _ => fail
             | _ => destruct x
             end
         end; simpl; by rewrite (amap_get_set_eq _ class_eqb_refl).
Qed.

(** X1: once a call of [add] has got past the field validation, whether it
    then returned or failed in a later step, every further [add] of the same
    class fails with [AlreadyRegisteredError] naming the class and changes
    nothing: a failed registration cannot be retried. *)
Theorem add_again_is_rejected w c o s w' o' :
  amap_has class_eqb c (configs s) = false ->
  (validateConfigFieldOptions c s).1 = Ok tt ->
  add w' c o' (add w c o s).2 = (Err (AlreadyRegisteredError (cname c)), (add w c o s).2).
Proof.
  intros Hhas Hok%validateConfigFieldOptions_ok. by apply add_registered, add_registers.
Qed.

Lemma add_again_is_rejected_witness :
  amap_has class_eqb Examples.Communicator (configs Examples.init) = false /\
  (validateConfigFieldOptions Examples.Communicator Examples.init).1 = Ok tt /\
  (add Examples.bare Examples.Communicator Examples.noOptions Examples.init).1
    = Err (MissingRequiredFieldError "GREETING") /\
  add Examples.withEnv Examples.Communicator Examples.localPath
      (add Examples.bare Examples.Communicator Examples.noOptions Examples.init).2
  = (Err (AlreadyRegisteredError "Communicator"),
     (add Examples.bare Examples.Communicator Examples.noOptions Examples.init).2).
Proof.
  do 3 (split; [reflexivity|]).
  apply (add_again_is_rejected Examples.bare Examples.Communicator Examples.noOptions
           Examples.init Examples.withEnv Examples.localPath); reflexivity.
Defined.

(** X2: when [add] fails because the class is already registered, has no
    config fields or has malformed field options, it has changed nothing:
    neither the registry nor the store nor the files read. *)
Theorem add_early_rejection_changes_nothing w c o s e :
  (add w c o s).1 = Err e ->
  rejects_early e = true ->
  (add w c o s).2 = s.
Proof.
  intros Hadd He.
  destruct (add_cases w c o s) as [[_ H]|[(_ & e' & _ & H)|(_ & _ & H)]];
    rewrite H in Hadd |- *; try done.
  unfold add_outcome, add_finish in Hadd.
  repeat match type of Hadd with
         | context [match ?x with _ => _ end] => destruct x
         end; simpl in Hadd; inversion Hadd; subst; discriminate He.
Qed.

Lemma add_early_rejection_changes_nothing_witness :
  (add Examples.bare Examples.Plain Examples.localPath Examples.init).1
    = Err (NoFieldsError "Plain") /\
  (add Examples.bare Examples.Plain Examples.localPath Examples.init).2 = Examples.init.
Proof.
  split; [reflexivity|].
  apply (add_early_rejection_changes_nothing Examples.bare Examples.Plain Examples.localPath
           Examples.init (NoFieldsError "Plain")); reflexivity.
Defined.

(** X3: [add] of one class leaves every object that existed before as it
    was, creates at most two objects, and leaves the registry entry of every
    other class as it was, whether it returns or fails. *)
Theorem add_leaves_the_rest w c o s :
  (forall l, l < length (heap s) -> heap (add w c o s).2 !! l = heap s !! l) /\
  (forall c', class_eqb c c' = false ->
     amap_get class_eqb c' (configs (add w c o s).2) = amap_get class_eqb c' (configs s)) /\
  length (heap s) <= length (heap (add w c o s).2) <= length (heap s) + 2.
Proof.
  destruct (add_cases w c o s) as [[_ H]|[(_ & e' & _ & H)|(_ & _ & H)]]; rewrite H; simpl.
  1,2: split; [done|]; split; [done|lia].
  unfold add_outcome, add_finish.
  repeat match goal with
         | |- context [match ?x with _ => _ end] => destruct x
         end; simpl.
  all: split; [intros l Hl; by rewrite lookup_app_l|].
  all: split; [intros c' Hc'; by rewrite !(amap_get_set_ne _ class_eqb_cong)|].
  all: rewrite length_app; simpl; lia.
Qed.

Lemma add_first_instance w c o s inst :
  amap_has class_eqb c (configs s) = false ->
  fields_ok (heap s) c = true ->
  overlaid w c o (heap s) = Some inst ->
  heap (add w c o s).2 !! length (heap s) = Some inst.
Proof.
  intros Hhas Hok Hinst. rewrite add_run by done.
  unfold add_outcome, add_finish. unfold overlaid in Hinst.
  destruct (truthy_path (configYmlPath o)) as [path|];
    [destruct (yamlFiles w path) as [y|]; [|discriminate Hinst]|].
  all: injection Hinst as ->.
  all: destruct (find _ (cfields c)); simpl.
  all: try by rewrite list_lookup_middle.
  all: by rewrite (list_lookup_middle (heap s) [cdefaults c]).
Qed.

(** X4: on the instance that [add] creates first and overlays, a field of a
    class with distinct fields holds the coerced environment value when the
    variable is set, else the YAML value when a file is loaded and has the
    key, else the in-class default. *)
Theorem add_overlays_by_precedence w c o s p l :
  amap_has class_eqb c (configs s) = false ->
  (validateConfigFieldOptions c s).1 = Ok tt ->
  fields_distinct (heap s) c ->
  In (p, l) (cfields c) ->
  (forall path, truthy_path (configYmlPath o) = Some path -> yamlFiles w path <> None) ->
  exists inst,
    heap (add w c o s).2 !! length (heap s) = Some inst /\
    obj_get p inst =
      match amap_get String.eqb (named (heap s) (p, l)) (processEnv w) with
      | Some raw => coerce w raw (obj_get "type" (deref_in (heap s) l))
      | None =>
          match yaml_source w o with
          | Some y =>
              match amap_get String.eqb (named (heap s) (p, l)) y with
              | Some v => v
              | None => obj_get p (cdefaults c)
              end
          | None => obj_get p (cdefaults c)
          end
      end.
Proof.
  intros Hhas Hok%validateConfigFieldOptions_ok Hdist Hin Hfile.
  assert (exists inst, overlaid w c o (heap s) = Some inst) as [inst Hinst].
  { unfold overlaid. destruct (truthy_path (configYmlPath o)) as [path|]; [|eauto].
    specialize (Hfile path eq_refl). destruct (yamlFiles w path); [eauto|done]. }
  exists inst. split; [by apply add_first_instance|]. by apply overlaid_precedence.
Qed.

Lemma add_overlays_by_precedence_witness :
  exists inst,
    heap (add Examples.withBoth Examples.ExampleClass Examples.localPath Examples.init).2 !! 3
      = Some inst /\
    obj_get "propertyDefaultHelloWorld" inst = VString "HeyWorld".
Proof.
  apply (add_overlays_by_precedence Examples.withBoth Examples.ExampleClass Examples.localPath
           Examples.init "propertyDefaultHelloWorld" 0); try reflexivity.
  - split; [|split]; simpl.
    + apply NoDup_singleton.
    + apply NoDup_singleton.
    + repeat constructor.
  - simpl. by left.
  - intros path [= <-]. discriminate.
Defined.

(** X5: the instance that a successful [add] returns and registers is a new
    object holding what [new clazz()] builds and nothing else; the instance
    that received the YAML and environment values stays in the store, one
    location before it, and is not the registered one. *)
Theorem add_returns_new_default_instance w c o s r s' :
  add w c o s = (Ok r, s') ->
  r = Some (S (length (heap s))) /\
  heap s' !! S (length (heap s)) = Some (cdefaults c) /\
  get c s' = (Ok (Some (S (length (heap s)))), s') /\
  heap s' !! length (heap s) = overlaid w c o (heap s).
Proof.
  intros Hadd. pose proof (add_ok_instance _ _ _ _ _ _ Hadd) as (-> & Hinst & Hget).
  split; [done|]. split; [done|]. split; [by rewrite get_run, Hget|].
  destruct (add_cases w c o s) as [[_ H]|[(_ & e & _ & H)|(Hhas & Hok & H)]];
    try (rewrite H in Hadd; discriminate Hadd).
  destruct (overlaid w c o (heap s)) as [inst|] eqn:Hov.
  - pose proof (add_first_instance _ _ _ _ _ Hhas Hok Hov) as Hfirst.
    by rewrite Hadd in Hfirst.
  - exfalso. rewrite H in Hadd. unfold add_outcome in Hadd. unfold overlaid in Hov.
    destruct (truthy_path (configYmlPath o)) as [path|]; [|discriminate Hov].
    destruct (yamlFiles w path); [discriminate Hov|discriminate Hadd].
Qed.

Lemma add_returns_new_default_instance_witness :
  let s' := (add Examples.withBoth Examples.ExampleClass Examples.localPath Examples.init).2 in
  add Examples.withBoth Examples.ExampleClass Examples.localPath Examples.init
    = (Ok (Some 4), s') /\
  heap s' !! 4 = Some [("propertyDefaultHelloWorld", VString "Hi")] /\
  get Examples.ExampleClass s' = (Ok (Some 4), s') /\
  heap s' !! 3 = Some [("propertyDefaultHelloWorld", VString "HeyWorld")].
Proof.
  intros s'. split; [reflexivity|].
  pose proof (add_returns_new_default_instance Examples.withBoth Examples.ExampleClass
                Examples.localPath Examples.init (Some 4) s' eq_refl) as (_ & H1 & H2 & H3).
  split; [exact H1|]. split; [exact H2|exact H3].
Defined.

Lemma overlay_keys_ext m val val' keys o :
  (forall key cvo, In key keys -> amap_get String.eqb key m = Some cvo ->
                   val key cvo = val' key cvo) ->
  overlay_keys m val keys o = overlay_keys m val' keys o.
Proof.
  unfold overlay_keys. revert o. induction keys as [|k keys IH]; intros o Hval; [done|].
  simpl. rewrite IH by (intros key cvo Hin; apply Hval; by right).
  destruct (amap_get String.eqb k m) as [cvo|] eqn:Hk; [|done].
  by rewrite (Hval k cvo (or_introl eq_refl) Hk).
Qed.

Lemma known_keys_neq m keys k key :
  amap_has String.eqb k m = false -> In key (known_keys m keys) -> String.eqb k key = false.
Proof.
  intros Hk Hin. unfold known_keys in Hin. apply filter_In in Hin as [_ Hkey].
  destruct (String.eqb_spec k key) as [->|]; [congruence|done].
Qed.

Lemma env_layer_unknown_variable w m k raw o :
  amap_has String.eqb k m = false ->
  env_layer (with_variable k raw w) m o = env_layer w m o.
Proof.
  intros Hk. unfold env_layer, getEnvironmentVariableKeys. simpl.
  unfold known_keys at 1. simpl. rewrite Hk. fold (known_keys m (amap_keys (processEnv w))).
  apply overlay_keys_ext. intros key cvo Hin _.
  unfold loadEnvironmentVariable. simpl. by rewrite (known_keys_neq _ _ _ _ Hk Hin).
Qed.

Lemma yaml_layer_unknown_key m k v y o :
  amap_has String.eqb k m = false ->
  yaml_layer m ((k, v) :: y) o = yaml_layer m y o.
Proof.
  intros Hk. unfold yaml_layer, obj_keys. simpl.
  unfold known_keys at 1. simpl. rewrite Hk. fold (known_keys m (amap_keys y)).
  apply overlay_keys_ext. intros key cvo Hin _.
  unfold obj_get. simpl. by rewrite (known_keys_neq _ _ _ _ Hk Hin).
Qed.

(** X6: an environment variable whose name is not a config name of the class
    has no effect on [add]: result and state are the same with and without
    it. *)
Theorem add_ignores_unknown_variable w c o s k raw :
  amap_has String.eqb k (configValueNames_in (heap s) (cfields c)) = false ->
  add (with_variable k raw w) c o s = add w c o s.
Proof.
  intros Hk.
  destruct (add_cases w c o s) as [[Hhas H]|[(Hhas & e & He & H)|(Hhas & Hok & H)]];
    rewrite H.
  - by apply add_registered.
  - by apply add_invalid.
  - rewrite add_run by done. unfold add_outcome. simpl.
    destruct (truthy_path (configYmlPath o)) as [path|];
      [destruct (yamlFiles w path) as [y|]|]; by rewrite ?env_layer_unknown_variable.
Qed.

Lemma add_ignores_unknown_variable_witness :
  add (with_variable "PATH" "/bin" Examples.withEnv) Examples.ExampleClass Examples.noOptions
      Examples.init
  = add Examples.withEnv Examples.ExampleClass Examples.noOptions Examples.init.
Proof.
  apply (add_ignores_unknown_variable Examples.withEnv Examples.ExampleClass
           Examples.noOptions Examples.init "PATH" "/bin"). reflexivity.
Defined.

(** X7: a key of the YAML file that is not a config name of the class has no
    effect on [add]: result and state are the same with and without it. *)
Theorem add_ignores_unknown_yaml_key w c o s k v :
  amap_has String.eqb k (configValueNames_in (heap s) (cfields c)) = false ->
  add (with_yaml_key k v w) c o s = add w c o s.
Proof.
  intros Hk.
  destruct (add_cases w c o s) as [[Hhas H]|[(Hhas & e & He & H)|(Hhas & Hok & H)]];
    rewrite H.
  - by apply add_registered.
  - by apply add_invalid.
  - rewrite add_run by done. unfold add_outcome. simpl.
    destruct (truthy_path (configYmlPath o)) as [path|]; [|done].
    destruct (yamlFiles w path) as [y|]; simpl; [|done].
    by rewrite yaml_layer_unknown_key.
Qed.

Lemma add_ignores_unknown_yaml_key_witness :
  add (with_yaml_key "LOG_LEVEL" (VString "debug") Examples.withYaml) Examples.ExampleClass
      Examples.localPath Examples.init
  = add Examples.withYaml Examples.ExampleClass Examples.localPath Examples.init.
Proof.
  apply (add_ignores_unknown_yaml_key Examples.withYaml Examples.ExampleClass
           Examples.localPath Examples.init "LOG_LEVEL" (VString "debug")). reflexivity.
Defined.

(** ** [getConfigsDefintions] *)

(** X8: starting from a registry without classes, whatever calls are made,
    [getConfigsDefintions] returns, with one entry per declared field of the
    classes then in the registry: [add] lets no class without field metadata
    in. *)
Theorem getConfigsDefintions_always_returns s calls :
  configs s = [] ->
  exists defs s',
    getConfigsDefintions (run calls s) = (Ok defs, s') /\
    length defs = length (declared (configs (run calls s))).
Proof.
  intros Hempty. eexists _, _.
  rewrite getConfigsDefintions_run by by apply registry_ok_run, registry_ok_empty.
  split; [done|]. by rewrite length_seq.
Qed.

Lemma getConfigsDefintions_always_returns_witness :
  configs Examples.init = [] /\
  exists defs s',
    getConfigsDefintions
      (run [CallAdd Examples.bare Examples.Communicator Examples.noOptions;
            CallAdd Examples.bare Examples.Plain Examples.noOptions;
            CallAdd Examples.withEnv Examples.ExampleClass Examples.localPath;
            CallRemoveAll;
            CallAdd Examples.bare Examples.ExtraExampleClass Examples.noOptions]
           Examples.init) = (Ok defs, s') /\
    length defs = 1.
Proof.
  split; [reflexivity|].
  apply (getConfigsDefintions_always_returns Examples.init
           [CallAdd Examples.bare Examples.Communicator Examples.noOptions;
            CallAdd Examples.bare Examples.Plain Examples.noOptions;
            CallAdd Examples.withEnv Examples.ExampleClass Examples.localPath;
            CallRemoveAll;
            CallAdd Examples.bare Examples.ExtraExampleClass Examples.noOptions]).
  reflexivity.
Defined.

Lemma declared_in_store s l :
  registry_ok s = true -> In l (declared (configs s)) -> l < length (heap s).
Proof.
  intros Hok Hl. unfold declared in Hl. apply in_flat_map in Hl as ([c k] & Hc & Hl).
  apply in_map_iff in Hl as (f & <- & Hf).
  unfold registry_ok in Hok. rewrite forallb_forall in Hok. specialize (Hok _ Hc).
  apply andb_true_iff in Hok as [_ Hv]. rewrite forallb_forall in Hv.
  by apply Nat.ltb_lt, Hv.
Qed.

Lemma getConfigsDefintions_contents s :
  registry_ok s = true ->
  exists defs s',
    getConfigsDefintions s = (Ok defs, s') /\
    map (deref_in (heap s')) defs = map (deref_in (heap s)) (declared (configs s)) /\
    (forall d, In d defs -> length (heap s) <= d) /\
    heap s' = heap s ++ map (deref_in (heap s)) (declared (configs s)) /\
    configs s' = configs s.
Proof.
  intros Hok. rewrite getConfigsDefintions_run by done. eexists _, _. split; [done|].
  simpl. repeat split.
  - rewrite <- (length_map (deref_in (heap s)) (declared (configs s))).
    apply deref_in_fresh_seq.
  - intros d Hd%in_seq. lia.
Qed.

(** X9: a second call of [getConfigsDefintions] returns entries with the
    contents the first call returned, whatever was written to an entry of the
    first result in between. *)
Theorem getConfigsDefintions_again s defs1 s1 d p v :
  registry_ok s = true ->
  getConfigsDefintions s = (Ok defs1, s1) ->
  In d defs1 ->
  exists defs2 s2,
    getConfigsDefintions (assign (Some d) p v s1).2 = (Ok defs2, s2) /\
    map (deref_in (heap s2)) defs2 = map (deref_in (heap s1)) defs1.
Proof.
  intros Hok Hfirst Hd.
  destruct (getConfigsDefintions_contents s Hok) as (defs & s' & Hrun & Hc1 & Hnew & Hheap & Hcfg).
  rewrite Hrun in Hfirst. injection Hfirst as -> ->.
  set (t := (assign (Some d) p v s1).2).
  assert (configs t = configs s) as Hcfg' by (by rewrite <- Hcfg).
  assert (length (heap t) = length (heap s1)) as Hlen
    by (unfold t; simpl; by rewrite length_alter).
  assert (registry_ok t = true) as Hok'.
  { apply (registry_ok_grows s); [|done]. split; [done|].
    rewrite Hlen, Hheap, length_app. lia. }
  destruct (getConfigsDefintions_contents t Hok') as (defs2 & s2 & Hrun2 & Hc2 & _).
  exists defs2, s2. split; [done|]. rewrite Hc2, Hc1, Hcfg'.
  apply map_ext_in. intros l Hl. apply (declared_in_store s l Hok) in Hl.
  unfold t. simpl. rewrite deref_in_alter_ne by (specialize (Hnew d Hd); lia).
  rewrite Hheap. by apply deref_in_app_l.
Qed.

Lemma getConfigsDefintions_again_witness :
  let s := (add Examples.bare Examples.ExampleClass Examples.noOptions Examples.init).2 in
  registry_ok s = true /\
  (getConfigsDefintions s).1 = Ok [5] /\
  exists defs2 s2,
    getConfigsDefintions
      (assign (Some 5) "name" (VString "CHANGED") (getConfigsDefintions s).2).2
    = (Ok defs2, s2) /\
    map (deref_in (heap s2)) defs2 = [Examples.helloWorldOptions].
Proof.
  intros s. split; [reflexivity|]. split; [reflexivity|].
  apply (getConfigsDefintions_again s [5] (getConfigsDefintions s).2 5 "name"
           (VString "CHANGED")); [reflexivity|reflexivity|].
  simpl. by left.
Defined.

Lemma amap_set_absent {V} (k : ClassType) (v : V) m :
  amap_has class_eqb k m = false -> amap_set class_eqb k v m = m ++ [(k, v)].
Proof.
  unfold amap_has. induction m as [|[k' v'] m IH]; simpl; [done|].
  destruct (class_eqb k' k); [done|]. intros H. by rewrite IH.
Qed.

Lemma amap_set_last {V} (k : ClassType) (v v' : V) m :
  amap_has class_eqb k m = false ->
  amap_set class_eqb k v' (m ++ [(k, v)]) = m ++ [(k, v')].
Proof.
  unfold amap_has. induction m as [|[k1 v1] m IH]; simpl.
  - by rewrite class_eqb_refl.
  - destruct (class_eqb k1 k); [done|]. intros H. by rewrite IH.
Qed.

(** X10: after a successful [add] the definitions export is the export from
    before followed by the field options of the new class, in declaration
    order. *)
Theorem getConfigsDefintions_after_add w c o s r s' :
  registry_ok s = true ->
  add w c o s = (Ok r, s') ->
  exists defs t defs' t',
    getConfigsDefintions s = (Ok defs, t) /\
    getConfigsDefintions s' = (Ok defs', t') /\
    map (deref_in (heap t')) defs'
    = map (deref_in (heap t)) defs
      ++ map (fun f : string * loc => deref_in (heap s) f.2) (cfields c).
Proof.
  intros Hok Hadd.
  assert (registry_ok s' = true) as Hok'.
  { pose proof (registry_ok_step s (CallAdd w c o) Hok) as H. simpl in H.
    by rewrite Hadd in H. }
  destruct (getConfigsDefintions_contents s Hok) as (defs & t & Hrun & Hc & _).
  destruct (getConfigsDefintions_contents s' Hok') as (defs' & t' & Hrun' & Hc' & _).
  exists defs, t, defs', t'. split; [done|]. split; [done|]. rewrite Hc, Hc'.
  destruct (add_cases w c o s) as [[_ H]|[(_ & e & _ & H)|(Hhas & Hfields & H)]];
    rewrite H in Hadd; try discriminate Hadd.
  assert (configs s' = configs s ++ [(c, S (length (heap s)))]
          /\ exists h, heap s' = heap s ++ h) as [Hcfg [h Hheap]].
  { unfold add_outcome, add_finish in Hadd.
    repeat match type of Hadd with
           | context [match ?x with _ => _ end] => destruct x
           end; try discriminate Hadd.
    all: injection Hadd as <- <-; simpl.
    all: rewrite (amap_set_absent c (length (heap s))), amap_set_last by done.
    all: eauto. }
  rewrite Hcfg, Hheap. unfold declared. rewrite flat_map_app, map_app. simpl.
  rewrite app_nil_r, map_map. f_equal.
  - apply map_ext_in. intros l Hl. by apply deref_in_app_l, declared_in_store.
  - apply map_ext_in. intros f Hf. apply deref_in_app_l.
    pose proof (fields_ok_valid _ _ Hfields) as Hv. rewrite List.Forall_forall in Hv.
    by apply Hv.
Qed.

Lemma getConfigsDefintions_after_add_witness :
  let s := (add Examples.bare Examples.ExampleClass Examples.noOptions Examples.init).2 in
  let s' := (add Examples.bare Examples.ExtraExampleClass Examples.noOptions s).2 in
  registry_ok s = true /\
  exists defs t defs' t',
    getConfigsDefintions s = (Ok defs, t) /\
    getConfigsDefintions s' = (Ok defs', t') /\
    map (deref_in (heap t')) defs'
    = map (deref_in (heap t)) defs ++ [Examples.fooBarOptions].
Proof.
  intros s s'. split; [reflexivity|].
  apply (getConfigsDefintions_after_add Examples.bare Examples.ExtraExampleClass
           Examples.noOptions s (Some 6) s'); reflexivity.
Defined.

(** ** Writing a family of keys *)

Section FoldSet.
Context {V : Type} (f : string -> V).

Lemma fold_set_miss keys (m : list (string * V)) n :
  ~ In n keys ->
  amap_get String.eqb n
    (fold_left (fun m k => amap_set String.eqb k (f k) m) keys m)
  = amap_get String.eqb n m.
Proof.
  revert m. induction keys as [|k keys IH]; intros m Hn; [done|]. simpl.
  rewrite IH by (intros H; apply Hn; by right). rewrite amap_get_set_string.
  destruct (String.eqb_spec k n) as [->|_]; [|done]. destruct Hn. by left.
Qed.

Lemma fold_set_hit keys (m : list (string * V)) n :
  In n keys ->
  amap_get String.eqb n
    (fold_left (fun m k => amap_set String.eqb k (f k) m) keys m)
  = Some (f n).
Proof.
  revert m. induction keys as [|k keys IH]; intros m Hn; [done|]. simpl.
  destruct (in_dec String.string_dec n keys) as [Hin|Hout]; [by apply IH|].
  destruct Hn as [->|Hn]; [|done].
  rewrite fold_set_miss by done. by rewrite amap_get_set_string, String.eqb_refl.
Qed.
End FoldSet.

Lemma amap_set_same {V} (k : string) (v : V) m :
  amap_get String.eqb k m = Some v -> amap_set String.eqb k v m = m.
Proof.
  induction m as [|[k' v'] m IH]; simpl; [done|].
  destruct (String.eqb k' k); [by intros [= ->]|]. intros H. by rewrite IH.
Qed.

(** ** [takeSnapshot] *)

Lemma snapshot_of_miss h fields o p :
  ~ In p (map fst fields) -> obj_get p (snapshot_of h fields o) = obj_get p o.
Proof.
  unfold snapshot_of. revert o. induction fields as [|[q k] fields IH]; intros o Hp; [done|].
  simpl in *. rewrite IH by (intros H; apply Hp; by right).
  apply obj_get_set_ne. intros ->. apply Hp. by left.
Qed.

Lemma snapshot_of_hit h fields o p l :
  List.NoDup (map fst fields) -> In (p, l) fields ->
  obj_get p (snapshot_of h fields o) = obj_get "value" (deref_in h l).
Proof.
  revert o. induction fields as [|[q k] fields IH]; intros o Hnd Hin; [done|].
  simpl in Hnd. apply List.NoDup_cons_iff in Hnd as [Hq Hnd].
  change (snapshot_of h ((q, k) :: fields) o)
    with (snapshot_of h fields (obj_set q (obj_get "value" (deref_in h k)) o)).
  destruct Hin as [[= -> ->]|Hin]; [|by apply IH].
  rewrite snapshot_of_miss by done. apply obj_get_set_eq.
Qed.

(** X11: for a class whose field metadata is in the store, registered or
    not, [takeSnapshot] returns a new object and changes nothing else.  The
    keys of the snapshot are the declared property names, and under each
    property it holds the [value] entry of the property's options object;
    no instance is read. *)
Theorem takeSnapshot_reads_field_metadata c s :
  fields_in_store (heap s) c = true ->
  List.NoDup (map fst (cfields c)) ->
  exists snap,
    takeSnapshot c s = (Ok (length (heap s)), set_heap (heap s ++ [snap]) s) /\
    (forall p, In p (obj_keys snap) <-> In p (map fst (cfields c))) /\
    (forall p l, In (p, l) (cfields c) ->
       obj_get p snap = obj_get "value" (deref_in (heap s) l)).
Proof.
  intros Hstore Hnd. exists (snapshot_of (heap s) (cfields c) []).
  split; [by apply takeSnapshot_run|]. split.
  - intros p. rewrite snapshot_of_keys. simpl. split; [by intros [H|[]]|by left].
  - intros p l Hin. by apply snapshot_of_hit.
Qed.

Lemma takeSnapshot_reads_field_metadata_witness :
  amap_has class_eqb Examples.ExampleClass (configs Examples.init) = false /\
  exists snap,
    takeSnapshot Examples.ExampleClass Examples.init
    = (Ok 3, set_heap (heap Examples.init ++ [snap]) Examples.init) /\
    (forall p, In p (obj_keys snap) <-> In p ["propertyDefaultHelloWorld"]) /\
    (forall p l, In (p, l) (cfields Examples.ExampleClass) ->
       obj_get p snap = obj_get "value" (deref_in (heap Examples.init) l)).
Proof.
  split; [reflexivity|].
  apply (takeSnapshot_reads_field_metadata Examples.ExampleClass Examples.init);
    [reflexivity|].
  simpl. constructor; [by intros []|constructor].
Defined.

(** ** [restoreSnapshot] *)

Lemma restore_onto_miss snap keys o p :
  ~ In p keys -> amap_get String.eqb p (restore_onto snap keys o) = amap_get String.eqb p o.
Proof. apply (fold_set_miss (fun k => obj_get k snap)). Qed.

Lemma restore_onto_hit snap keys o p :
  In p keys -> amap_get String.eqb p (restore_onto snap keys o) = Some (obj_get p snap).
Proof. apply (fold_set_hit (fun k => obj_get k snap)). Qed.

(** X12: for a registered class, [restoreSnapshot] with a snapshot that is
    not the instance itself and has no key [__proto__] (the one key whose
    assignment JavaScript hands to a setter instead of storing it) returns,
    and afterwards the instance holds the snapshot's value under every key of
    the snapshot, declared property or not, and its earlier value under
    every other property; no other object and no registry entry is
    changed. *)
Theorem restoreSnapshot_writes_every_key c snapshot l inst s :
  amap_get class_eqb c (configs s) = Some l ->
  heap s !! l = Some inst ->
  snapshot <> l ->
  ~ In "__proto__" (obj_keys (deref_in (heap s) snapshot)) ->
  exists inst',
    (restoreSnapshot c snapshot s).1 = Ok tt /\
    heap (restoreSnapshot c snapshot s).2 !! l = Some inst' /\
    (forall p, In p (obj_keys (deref_in (heap s) snapshot)) ->
       obj_get p inst' = obj_get p (deref_in (heap s) snapshot)) /\
    (forall p, ~ In p (obj_keys (deref_in (heap s) snapshot)) ->
       obj_get p inst' = obj_get p inst) /\
    (forall k, k <> l -> heap (restoreSnapshot c snapshot s).2 !! k = heap s !! k) /\
    configs (restoreSnapshot c snapshot s).2 = configs s.
Proof.
  intros Hget Hinst Hne _. rewrite (restoreSnapshot_run c snapshot l s Hget Hne).
  exists (restore_onto (deref_in (heap s) snapshot)
                       (obj_keys (deref_in (heap s) snapshot)) inst).
  unfold set_heap. cbn [fst snd heap configs].
  split; [done|].
  split; [rewrite list_lookup_alter_eq; unfold loc in *; by rewrite Hinst|].
  split; [|split; [|split; [|done]]].
  - intros p Hp. unfold obj_get at 1. by rewrite restore_onto_hit.
  - intros p Hp. unfold obj_get at 1. by rewrite restore_onto_miss.
  - intros k Hk. by rewrite list_lookup_alter_ne.
Qed.

Lemma restoreSnapshot_writes_every_key_witness :
  let s := (alloc [("unknownProperty", VString "value")]
              (add Examples.bare Examples.ExampleClass Examples.noOptions Examples.init).2).2 in
  amap_get class_eqb Examples.ExampleClass (configs s) = Some 4 /\
  ~ In "__proto__" (obj_keys (deref_in (heap s) 5)) /\
  exists inst',
    (restoreSnapshot Examples.ExampleClass 5 s).1 = Ok tt /\
    heap (restoreSnapshot Examples.ExampleClass 5 s).2 !! 4 = Some inst' /\
    (forall p, In p ["unknownProperty"] -> obj_get p inst' = obj_get p (deref_in (heap s) 5)) /\
    (forall p, ~ In p ["unknownProperty"] ->
       obj_get p inst' = obj_get p [("propertyDefaultHelloWorld", VString "Hi")]) /\
    (forall k, k <> 4 -> heap (restoreSnapshot Examples.ExampleClass 5 s).2 !! k = heap s !! k) /\
    configs (restoreSnapshot Examples.ExampleClass 5 s).2 = configs s.
Proof.
  intros s.
  assert (~ In "__proto__" (obj_keys (deref_in (heap s) 5))) as Hkeys
    by (simpl; intros [H|[]]; discriminate H).
  split; [reflexivity|]. split; [exact Hkeys|].
  apply (restoreSnapshot_writes_every_key Examples.ExampleClass 5 4
           [("propertyDefaultHelloWorld", VString "Hi")] s);
    [reflexivity|reflexivity|lia|exact Hkeys].
Defined.

Lemma restore_onto_fixed snap keys keys' o :
  (forall k, In k keys' -> In k keys) ->
  restore_onto snap keys' (restore_onto snap keys o) = restore_onto snap keys o.
Proof.
  intros Hsub. induction keys' as [|k keys' IH]; [done|].
  change (restore_onto snap (k :: keys') (restore_onto snap keys o))
    with (restore_onto snap keys'
            (obj_set k (obj_get k snap) (restore_onto snap keys o))).
  unfold obj_set. rewrite amap_set_same.
  - apply IH. intros k' Hk'. apply Hsub. by right.
  - apply restore_onto_hit, Hsub. by left.
Qed.

(** X13: restoring the same snapshot a second time changes nothing. *)
Theorem restoreSnapshot_twice c snapshot l s :
  amap_get class_eqb c (configs s) = Some l ->
  snapshot <> l ->
  restoreSnapshot c snapshot (restoreSnapshot c snapshot s).2
  = (Ok tt, (restoreSnapshot c snapshot s).2).
Proof.
  intros Hget Hne. rewrite (restoreSnapshot_run c snapshot l s Hget Hne). simpl.
  rewrite (restoreSnapshot_run c snapshot l) by done. simpl.
  rewrite deref_in_alter_ne by done. rewrite list_alter_alter_eq.
  unfold set_heap. simpl. do 2 f_equal.
  apply list_alter_ext; [|done]. intros o _. simpl. by apply restore_onto_fixed.
Qed.

Lemma restoreSnapshot_twice_witness :
  let s := (alloc [("propertyDefaultHelloWorld", VString "Hey World!")]
              (add Examples.bare Examples.ExampleClass Examples.noOptions Examples.init).2).2 in
  amap_get class_eqb Examples.ExampleClass (configs s) = Some 4 /\
  heap (restoreSnapshot Examples.ExampleClass 5 s).2 !! 4
    = Some [("propertyDefaultHelloWorld", VString "Hey World!")] /\
  restoreSnapshot Examples.ExampleClass 5 (restoreSnapshot Examples.ExampleClass 5 s).2
  = (Ok tt, (restoreSnapshot Examples.ExampleClass 5 s).2).
Proof.
  intros s. split; [reflexivity|]. split; [reflexivity|].
  apply (restoreSnapshot_twice Examples.ExampleClass 5 4 s); [reflexivity|lia].
Defined.

Lemma restore_loop_registered c snapshot l keys s :
  amap_get class_eqb c (configs s) = Some l ->
  (forEach keys (fun property =>
     instance ← get c;
     value ← read (Some snapshot) property;
     assign instance property value) s).1 = Ok tt.
Proof.
  revert s. induction keys as [|p keys IH]; intros s Hget; simpl; [done|].
  rewrite !bind_run, get_run, Hget, bind_run, read_run, assign_run. by apply IH.
Qed.

(** X14: [restoreSnapshot] fails in one case only: the class is not in the
    registry and the snapshot has at least one key; the failure is
    [NotRegisteredError] naming the class.  For a registered class, and for
    a snapshot without keys, it returns; and for a class that is not
    registered it changes nothing either way. *)
Theorem restoreSnapshot_outcome c snapshot s :
  (restoreSnapshot c snapshot s).1
  = match amap_get class_eqb c (configs s), obj_keys (deref_in (heap s) snapshot) with
    | None, _ :: _ => Err (NotRegisteredError (cname c))
    | _, _ => Ok tt
    end /\
  (amap_get class_eqb c (configs s) = None -> (restoreSnapshot c snapshot s).2 = s).
Proof.
  unfold restoreSnapshot. rewrite !bind_run, deref_run. simpl.
  destruct (amap_get class_eqb c (configs s)) as [l|] eqn:Hget.
  - split; [|done]. rewrite (restore_loop_registered c snapshot l) by done.
    by destruct (obj_keys (deref_in (heap s) snapshot)).
  - destruct (obj_keys (deref_in (heap s) snapshot)) as [|p keys]; simpl; [done|].
    by rewrite !bind_run, get_run, Hget.
Qed.

Lemma obj_set_own_value p (o : Obj) :
  In p (obj_keys o) -> obj_set p (obj_get p o) o = o.
Proof.
  intros Hp. unfold obj_set, obj_get.
  destruct (amap_get String.eqb p o) as [v|] eqn:Hv; [by apply amap_set_same|].
  by apply amap_get_keys in Hv.
Qed.

Lemma restore_self_loop c l keys s :
  amap_get class_eqb c (configs s) = Some l ->
  (forall p, In p keys -> In p (obj_keys (deref_in (heap s) l))) ->
  forEach keys (fun property =>
    instance ← get c;
    value ← read (Some l) property;
    assign instance property value) s = (Ok tt, s).
Proof.
  intros Hget. induction keys as [|p keys IH]; intros Hsub; simpl; [done|].
  rewrite !bind_run, get_run, Hget, bind_run, read_run, assign_run.
  assert (alter (obj_set p (obj_get p (deref_in (heap s) l))) l (heap s) = heap s) as ->.
  { apply list_eq. intros i. destruct (decide (l = i)) as [<-|Hne].
    - rewrite list_lookup_alter_eq. unfold deref_in in *.
      specialize (Hsub p (or_introl eq_refl)). unfold loc in *.
      destruct (heap s !! l) as [o|]; [|done]. simpl in *. by rewrite obj_set_own_value.
    - by rewrite list_lookup_alter_ne. }
  rewrite set_heap_id. apply IH. intros q Hq. apply Hsub. by right.
Qed.

(** X15: restoring the registered instance onto itself, as in
    [restoreSnapshot(cls, get(cls))], returns and changes nothing. *)
Theorem restoreSnapshot_of_the_instance_itself c l s :
  amap_get class_eqb c (configs s) = Some l ->
  restoreSnapshot c l s = (Ok tt, s).
Proof.
  intros Hget. unfold restoreSnapshot. rewrite !bind_run, deref_run. simpl.
  by apply restore_self_loop.
Qed.

Lemma restoreSnapshot_of_the_instance_itself_witness :
  let s := (add Examples.withEnv Examples.ExampleClass Examples.noOptions Examples.init).2 in
  get Examples.ExampleClass s = (Ok (Some 4), s) /\
  restoreSnapshot Examples.ExampleClass 4 s = (Ok tt, s).
Proof.
  intros s. split; [reflexivity|].
  apply (restoreSnapshot_of_the_instance_itself Examples.ExampleClass 4 s). reflexivity.
Defined.

(** ** The registry map and the other methods *)

(** X16: [get] changes nothing at all, and [getConfigsDefintions],
    [takeSnapshot] and [restoreSnapshot] never add, replace or remove a
    registry entry and never remove an object from the store, whether they
    return or fail. *)
Theorem only_add_changes_the_registry c snapshot s :
  (get c s).2 = s /\
  (configs (getConfigsDefintions s).2 = configs s /\
   length (heap s) <= length (heap (getConfigsDefintions s).2)) /\
  (configs (takeSnapshot c s).2 = configs s /\
   length (heap s) <= length (heap (takeSnapshot c s).2)) /\
  (configs (restoreSnapshot c snapshot s).2 = configs s /\
   length (heap s) <= length (heap (restoreSnapshot c snapshot s).2)).
Proof.
  split; [by rewrite get_run|]. split; [|split].
  - exact (preserves_getConfigsDefintions settled settled_alloc settled_alter s).
  - exact (preserves_takeSnapshot settled settled_alloc settled_alter c s).
  - exact (preserves_restoreSnapshot settled settled_alloc settled_alter c snapshot s).
Qed.

(** ** The environment helpers of the tests *)

Lemma env_delete_get n k env :
  amap_get String.eqb n (env_delete k env)
  = if String.eqb n k then None else amap_get String.eqb n env.
Proof.
  unfold env_delete. induction env as [|[k' v] env IH]; simpl; [by destruct (String.eqb n k)|].
  destruct (String.eqb_spec k' k) as [->|Hne]; simpl.
  - rewrite IH. rewrite (String.eqb_sym k n). by destruct (String.eqb n k).
  - rewrite IH. destruct (String.eqb_spec k' n) as [->|_]; [|done].
    destruct (String.eqb_spec n k); [done|done].
Qed.

Lemma removeEnvVariables_keys_get n keys env :
  amap_get String.eqb n (fold_left (fun env varName => env_delete varName env) keys env)
  = if existsb (String.eqb n) keys then None else amap_get String.eqb n env.
Proof.
  revert env. induction keys as [|k keys IH]; intros env; simpl; [done|].
  rewrite IH, env_delete_get. destruct (String.eqb n k); simpl; [|done].
  by destruct (existsb _ keys).
Qed.

Lemma existsb_string_in n keys : existsb (String.eqb n) keys = true <-> In n keys.
Proof.
  rewrite existsb_exists. split.
  - by intros (k & Hk & ->%String.eqb_eq).
  - intros Hn. exists n. by rewrite String.eqb_refl.
Qed.

(** X17: after [setEnvVariables] every variable named in the record reads as
    the record's value converted to a string, and every other variable reads
    as before. *)
Theorem setEnvVariables_lookup to_string envVariables env n :
  amap_get String.eqb n (setEnvVariables to_string envVariables env)
  = if existsb (String.eqb n) (obj_keys envVariables)
    then Some (to_string (obj_get n envVariables))
    else amap_get String.eqb n env.
Proof.
  unfold setEnvVariables.
  destruct (existsb (String.eqb n) (obj_keys envVariables)) eqn:E.
  - apply existsb_string_in in E.
    by rewrite (fold_set_hit (fun k => to_string (obj_get k envVariables))).
  - apply (fold_set_miss (fun k => to_string (obj_get k envVariables))).
    intros Hn%existsb_string_in. congruence.
Qed.

(** X18: [removeEnvVariables] after [setEnvVariables] of the same record
    leaves every variable named in the record unset, also one that was set
    before, and every other variable as it was. *)
Theorem setEnvVariables_then_removeEnvVariables to_string envVariables env n :
  amap_get String.eqb n
    (removeEnvVariables envVariables (setEnvVariables to_string envVariables env))
  = if existsb (String.eqb n) (obj_keys envVariables)
    then None
    else amap_get String.eqb n env.
Proof.
  unfold removeEnvVariables. rewrite removeEnvVariables_keys_get, setEnvVariables_lookup.
  by destruct (existsb _ _).
Qed.
